(** * Pool memory allocator (MemoryManager.h): embedding and verification

    The allocator keeps, for every block size, one array obtained from
    [new char[]].  The array holds the blocks, then one pointer-sized slot
    with the address of the first free block, then a bit field with one
    allocation bit per block.  Free blocks store the address of the next
    free block in their own first eight bytes.

    The code works on raw addresses, so the model is a byte-addressed
    store: addresses and [uintptr_t] values are integers taken modulo
    [2^64], a [uintptr_t] is read and written as eight bytes, least
    significant byte first (the target the source names: pointers of 64
    bits).  The narrower integer types of the source ([unsigned int],
    [uint16_t], [uint8_t]) wrap where the source converts to them.

    [new char[]] hands out an address and leaves the bytes as they are:
    the C++ array is not initialised, so the store in which the allocator
    is built is an input of the model.  The store is the flat address
    space of the process: an access outside every array, which C++ leaves
    undefined, reads or writes the store like any other access.  The
    registry of the pools and the list of the arrays that the runtime has
    handed out are kept beside the store, not in it.

    Line numbers are those of MemoryManager.h; the callers that are
    modelled are the tests of Main.cpp. *)

From Stdlib Require Import ZArith Lia List Bool FinFun.
From stdpp Require Import base gmap.

Local Open Scope Z_scope.

(** ** The byte store *)

Module Mem.

(** One byte per address.  The value kept at an address is read modulo
    256, so every function [Z -> Z] is a store. *)
Definition t := Z -> Z.

Definition load8 (m : t) (a : Z) : Z := m a mod 256.

Definition store8 (m : t) (a v : Z) : t :=
  fun x => if x =? a then v mod 256 else m x.

(** A [uintptr_t] at address [a]: bytes [a .. a+7], little endian. *)
Definition load64 (m : t) (a : Z) : Z :=
  load8 m a + 256 * (load8 m (a + 1) + 256 * (load8 m (a + 2) + 256 *
  (load8 m (a + 3) + 256 * (load8 m (a + 4) + 256 * (load8 m (a + 5) + 256 *
  (load8 m (a + 6) + 256 * load8 m (a + 7))))))).

Definition store64 (m : t) (a v : Z) : t :=
  fun x => if (a <=? x) && (x <? a + 8)
           then (v / 256 ^ (x - a)) mod 256
           else m x.

(** The store that holds the byte [b] everywhere. *)
Definition filled (b : Z) : t := fun _ => b.

End Mem.

(** ** Integer types of the source *)

Definition NUMBITSPERBYTE : Z := 8.
Definition sizeof_ptr : Z := 8.

Definition wrap64 (z : Z) : Z := z mod 2 ^ 64.   (* size_t, uintptr_t, pointers *)
Definition wrap32 (z : Z) : Z := z mod 2 ^ 32.   (* unsigned int *)
Definition wrap16 (z : Z) : Z := z mod 2 ^ 16.   (* uint16_t *)
Definition wrap8 (z : Z) : Z := z mod 2 ^ 8.     (* uint8_t *)

(** ** The allocator object and the process it lives in *)

(** [mNumBlocksPerPool] and [mPool] are the two data members of
    [MemoryManager].  [memory] is the byte store of the process.
    [heap_next] and [arrays] model the C++ runtime behind [new char[]]:
    the next address it hands out and the arrays it has handed out so far,
    each with its length in bytes. *)
Record State := mkState {
  mNumBlocksPerPool : Z;
  mPool : gmap Z Z;
  memory : Mem.t;
  heap_next : Z;
  arrays : gmap Z Z
}.

Definition set_memory (m : Mem.t) (st : State) : State :=
  mkState (mNumBlocksPerPool st) (mPool st) m (heap_next st) (arrays st).

Definition set_mPool (p : gmap Z Z) (st : State) : State :=
  mkState (mNumBlocksPerPool st) p (memory st) (heap_next st) (arrays st).

(** [new char[len]]: the array starts at [heap_next]; its bytes are not
    written.  The next array starts at the next multiple of 16 after the
    end of this one. *)
Definition align16 (z : Z) : Z := 16 * ((z + 15) / 16).

Definition new_char_array (len : Z) (st : State) : Z * State :=
  (heap_next st,
   mkState (mNumBlocksPerPool st) (mPool st) (memory st)
           (align16 (heap_next st + len))
           (<[heap_next st := len]> (arrays st))).

(** [mPool[size]] of [std::unordered_map]: a missing key is inserted with
    the value-initialised pointer, null. *)
Definition mPool_index (size : Z) (st : State) : Z * State :=
  match mPool st !! size with
  | Some p => (p, st)
  | None => (0, set_mPool (<[size := 0]> (mPool st)) st)
  end.

(** ** InitializePool *)

(** The loop of lines 82-86: every iteration stores in the current block
    the address of the block [stride] words further and moves there. *)
Fixpoint link_blocks (iterations : nat) (stride : Z) (current : Z) (m : Mem.t)
  : Z * Mem.t :=
  match iterations with
  | O => (current, m)
  | S k =>
      let next := wrap64 (current + sizeof_ptr * stride) in
      link_blocks k stride next (Mem.store64 m current next)
  end.

Definition InitializePool (size : Z) (numBlocks_arg : Z) (st : State) : State :=
  let numBlocks := wrap16 numBlocks_arg in
  let len := wrap64 (size * numBlocks + sizeof_ptr
                     + numBlocks / NUMBITSPERBYTE + 1) in
  let '(array, st1) := new_char_array len st in
  let st2 := set_mPool (<[size := array]> (mPool st1)) st1 in
  let firstFreeBlockAddress := array in
  let stride := wrap8 (size / sizeof_ptr) in
  let '(current, m1) :=
    link_blocks (Z.to_nat (numBlocks - 1)) stride firstFreeBlockAddress
                (memory st2) in
  let m2 := Mem.store64 m1 current 0 in
  let current' := wrap64 (current + sizeof_ptr * stride) in
  let m3 := Mem.store64 m2 current' firstFreeBlockAddress in
  set_memory m3 st2.

(** ** The constructor *)

(** The allocator is built in a process whose store is [m] and whose next
    [new] address is [heap]. *)
Definition MemoryManager_new (numBlocksPerPool : Z) (m : Mem.t) (heap : Z)
  : State :=
  fold_left
    (fun st exponent => InitializePool (2 ^ exponent) numBlocksPerPool st)
    [3; 4; 5]
    (mkState (wrap32 numBlocksPerPool) ∅ m heap ∅).

(** The default argument of the constructor. *)
Definition MemoryManager_default (m : Mem.t) (heap : Z) : State :=
  MemoryManager_new 10 m heap.

(** ** Allocate and Free *)

(** Lines 109 and 173: the slot after the last block. *)
Definition lastElementPtr (firstElementPtr size numBlocks : Z) : Z :=
  wrap64 (firstElementPtr + sizeof_ptr * ((size / sizeof_ptr) * numBlocks)).

(** Lines 123 and 175. *)
Definition indexBlockAllocated (address firstElementPtr size : Z) : Z :=
  wrap32 (wrap64 (address - firstElementPtr) / size).

(** Lines 124 and 176. *)
Definition desiredByte (last index : Z) : Z :=
  wrap64 (last + sizeof_ptr + index / NUMBITSPERBYTE).

(** Lines 125 and 177. *)
Definition shiftValue (index : Z) : Z :=
  NUMBITSPERBYTE - index mod NUMBITSPERBYTE - 1.

(** [Allocate<T>] with [size = sizeof(T)]; the result is the returned
    pointer, null when the pool is exhausted. *)
Definition Allocate (size : Z) (st : State) : Z * State :=
  let '(p, st1) := mPool_index size st in
  let st2 := if p =? 0
             then InitializePool size (mNumBlocksPerPool st1) st1
             else st1 in
  let '(firstElementPtr, st3) := mPool_index size st2 in
  let last := lastElementPtr firstElementPtr size (mNumBlocksPerPool st3) in
  let m := memory st3 in
  if Mem.load64 m last =? 0 then (0, st3)
  else
    let firstFreeBlockAddressValue := Mem.load64 m last in
    let index := indexBlockAllocated firstFreeBlockAddressValue
                                     firstElementPtr size in
    let byte := desiredByte last index in
    let m1 := Mem.store8 m byte
                (Z.lor (Mem.load8 m byte) (Z.shiftl 1 (shiftValue index))) in
    let temp := firstFreeBlockAddressValue in
    let next := Mem.load64 m1 firstFreeBlockAddressValue in
    let m2 := Mem.store64 m1 last next in
    (temp, set_memory m2 st3).

(** The three ways out of [Free], named after the messages of the debug
    build: lines 165, 184 and 199. *)
Inductive FreeExit : Type :=
  | InvalidPointerPassed
  | DoubleFreeAttempt
  | Freed.

(** [Free<T>(&pointer)] with [size = sizeof(T)] and [block] the value of the
    caller's pointer.  The result is the exit taken, the value of the
    caller's pointer afterwards, and the state. *)
Definition Free (size : Z) (block : Z) (st : State) : FreeExit * Z * State :=
  if block =? 0 then (InvalidPointerPassed, block, st)
  else
    let '(firstElementPtr, st1) := mPool_index size st in
    let last := lastElementPtr firstElementPtr size (mNumBlocksPerPool st1) in
    let index := indexBlockAllocated block firstElementPtr size in
    let byte := desiredByte last index in
    let shift := shiftValue index in
    let m := memory st1 in
    if Z.land (Mem.load8 m byte) (Z.shiftl 1 shift) =? 0
    then (DoubleFreeAttempt, block, st1)
    else
      let m1 := Mem.store8 m byte
                  (Z.lxor (Mem.load8 m byte) (Z.shiftl 1 shift)) in
      let m2 := Mem.store64 m1 block (Mem.load64 m1 last) in
      let m3 := Mem.store64 m2 last block in
      (Freed, 0, set_memory m3 st1).

(** [k] consecutive calls of [Allocate<T>], with the pointers they return. *)
Fixpoint allocate_n (k : nat) (size : Z) (st : State) : list Z * State :=
  match k with
  | O => ([], st)
  | S k' =>
      let '(p, st1) := Allocate size st in
      let '(ps, st2) := allocate_n k' size st1 in
      (p :: ps, st2)
  end.

(** The allocation bit of block [index], as [Free] tests it (line 181). *)
Definition allocation_bit (st : State) (size index : Z) : Z :=
  let firstElementPtr := default 0 (mPool st !! size) in
  let last := lastElementPtr firstElementPtr size (mNumBlocksPerPool st) in
  Z.land (Mem.load8 (memory st) (desiredByte last index))
         (Z.shiftl 1 (shiftValue index)).

(** The free-list head of the pool for [size]: the slot after the last
    block. *)
Definition free_list_head (st : State) (size : Z) : Z :=
  let firstElementPtr := default 0 (mPool st !! size) in
  Mem.load64 (memory st)
             (lastElementPtr firstElementPtr size (mNumBlocksPerPool st)).

(** The three components of the result of [Free]. *)
Definition exit_of (r : FreeExit * Z * State) : FreeExit := fst (fst r).

Definition pointer_of (r : FreeExit * Z * State) : Z := snd (fst r).

Definition state_of (r : FreeExit * Z * State) : State := snd r.

(** ** The destructor *)

(** [delete[] p]: nothing happens for a null pointer, the array that starts
    at [p] is released, and any other pointer is undefined behaviour:
    there is no result. *)
Definition delete_char_array (p : Z) (live : gmap Z Z) : option (gmap Z Z) :=
  if p =? 0 then Some live
  else match live !! p with
       | Some _ => Some (delete p live)
       | None => None
       end.

(** The loop of lines 36-39 over the entries of the registry. *)
Fixpoint delete_entries (entries : list (Z * Z)) (live : gmap Z Z)
  : option (gmap Z Z) :=
  match entries with
  | [] => Some live
  | (_, p) :: rest =>
      match delete_char_array p live with
      | Some live' => delete_entries rest live'
      | None => None
      end
  end.

(** [~MemoryManager]: every entry of the registry is deleted, in the
    order in which the map enumerates them, and the registry is cleared. *)
Definition MemoryManager_delete (st : State) : option State :=
  match delete_entries (map_to_list (mPool st)) (arrays st) with
  | Some live =>
      Some (mkState (mNumBlocksPerPool st) ∅ (memory st) (heap_next st) live)
  | None => None
  end.

(** ** Callers: sequences of calls, and the tests of Main.cpp *)

(** A call of one of the two operations, with [sizeof(T)] and, for [Free],
    the value of the pointer that is passed. *)
Inductive Call : Type :=
  | CallAllocate (size : Z)
  | CallFree (size block : Z).

Definition call_size (c : Call) : Z :=
  match c with
  | CallAllocate size => size
  | CallFree size _ => size
  end.

Definition run_call (st : State) (c : Call) : State :=
  match c with
  | CallAllocate size => snd (Allocate size st)
  | CallFree size block => state_of (Free size block st)
  end.

Definition run_calls (cs : list Call) (st : State) : State :=
  fold_left run_call cs st.

(** [Dummy] of Main.cpp holds a [uint64_t] and a [double]. *)
Definition sizeof_Dummy : Z := 16.

(** [Free(&p)] for each pointer of [blocks] in turn, each through a
    variable of its own: the exits taken. *)
Fixpoint free_n (size : Z) (blocks : list Z) (st : State)
  : list FreeExit * State :=
  match blocks with
  | [] => ([], st)
  | p :: rest =>
      let r := Free size p st in
      let '(es, st2) := free_n size rest (state_of r) in
      (exit_of r :: es, st2)
  end.

(** [Free(&ptr[index])]: the pointer is read from the array and the
    array holds afterwards what [Free] left in the variable. *)
Definition Free_at (size : Z) (index : nat) (ptr : list Z) (st : State)
  : FreeExit * list Z * State :=
  let r := Free size (nth index ptr 0) st in
  (exit_of r, <[index := pointer_of r]> ptr, state_of r).

(** TEST 4 of Main.cpp, lines 70-79, for the indices [r0] and [r1] that
    [rand] gave: the six exits of [Free] in the order of the calls, the
    pointer that [Allocate] returned into [d0], the array and the state at
    the end. *)
Definition test_double_deletes (size : Z) (ptr : list Z) (r0 r1 : nat)
    (st : State) : list FreeExit * Z * list Z * State :=
  let d0 := nth r0 ptr 0 in
  let d1 := nth r1 ptr 0 in
  let f1 := Free size d0 st in
  let d0 := pointer_of f1 in
  let f2 := Free size d0 (state_of f1) in
  let '(e3, ptr3, st3) := Free_at size r1 ptr (state_of f2) in
  let '(e4, ptr4, st4) := Free_at size r0 ptr3 st3 in
  let a := Allocate size st4 in
  let d0 := fst a in
  let '(e5, ptr5, st5) := Free_at size r1 ptr4 (snd a) in
  let f6 := Free size d1 st5 in
  ([exit_of f1; exit_of f2; e3; e4; e5; exit_of f6], d0, ptr5, state_of f6).

(** * Vocabulary of the statements *)

(** The blocks, the head slot and the bit field of the pool at [base], as
    [Allocate] and [Free] compute their addresses, lie in the address
    space. *)
Definition pool_fits (base size numBlocks : Z) : Prop :=
  0 < base /\ 0 < size /\ 0 <= numBlocks /\
  base + sizeof_ptr * (size / sizeof_ptr * numBlocks) + sizeof_ptr
    + numBlocks / NUMBITSPERBYTE + 1 <= 2 ^ 64.

(** The first pointer-width bytes at [block] lie inside the blocks of the
    pool at [base]. *)
Definition in_blocks (base size numBlocks block : Z) : Prop :=
  base <= block /\ block + sizeof_ptr <= lastElementPtr base size numBlocks.

(** The store after the successful path of [Free] (lines 190-196) and
    after the successful path of [Allocate] (lines 125-145), for the pool
    at [base] with [n] blocks. *)
Definition store_after_free (m : Mem.t) (base size n block : Z) : Mem.t :=
  let last := lastElementPtr base size n in
  let index := indexBlockAllocated block base size in
  let byte := desiredByte last index in
  let m1 := Mem.store8 m byte
              (Z.lxor (Mem.load8 m byte) (Z.shiftl 1 (shiftValue index))) in
  Mem.store64 (Mem.store64 m1 block (Mem.load64 m1 last)) last block.

Definition store_after_allocate (m : Mem.t) (base size n : Z) : Mem.t :=
  let last := lastElementPtr base size n in
  let head := Mem.load64 m last in
  let index := indexBlockAllocated head base size in
  let byte := desiredByte last index in
  let m1 := Mem.store8 m byte
              (Z.lor (Mem.load8 m byte) (Z.shiftl 1 (shiftValue index))) in
  Mem.store64 m1 last (Mem.load64 m1 head).

(** Block [i] of the pool at [base], at the spacing [Allocate] and [Free]
    use to find the head slot: [size / 8] words per block. *)
Definition block_address (base size i : Z) : Z :=
  base + sizeof_ptr * (size / sizeof_ptr * i).

(** Blocks [k], [k+1], ..., [n-1] are chained in this order, and the head
    slot holds the address of block [k] (null when [k = n]). *)
Definition linked_from (m : Mem.t) (base size n k : Z) : Prop :=
  Mem.load64 m (lastElementPtr base size n)
  = (if k <? n then block_address base size k else 0)
  /\ forall i, k <= i < n ->
       Mem.load64 m (block_address base size i)
       = (if i + 1 <? n then block_address base size (i + 1) else 0).

Definition pool_linked (st : State) (size base n k : Z) : Prop :=
  mPool st !! size = Some base /\ mNumBlocksPerPool st = n /\
  linked_from (memory st) base size n k.

(** The addresses of blocks [k], ..., [k + j - 1]. *)
Definition block_addresses (base size k : Z) (j : nat) : list Z :=
  map (fun i => block_address base size (k + Z.of_nat i)) (seq 0 j).

(** [n] consecutive calls of [Allocate] return [n] non-null, pairwise
    distinct addresses, and the call after them returns null and leaves
    the state as it is. *)
Definition exhausts_after (size n : Z) (st : State) : Prop :=
  let addresses := fst (allocate_n (Z.to_nat n) size st) in
  let full := snd (allocate_n (Z.to_nat n) size st) in
  length addresses = Z.to_nat n /\
  Forall (fun p => p <> 0) addresses /\
  NoDup addresses /\
  Allocate size full = (0, full).

(** The length of the array of a pool of [n] blocks of [size] bytes. *)
Definition pool_array_length (size n : Z) : Z := size * n + 8 + n / 8 + 1.

Definition state_all_allocated : State :=
  snd (allocate_n 10 16 (MemoryManager_new 10 (Mem.filled 0) 4096)).

Definition state_before_pool : State :=
  mkState 10 ∅ (Mem.filled 205) 4096 ∅.

(** The allocator with ten blocks per pool, built in a process whose heap
    holds the byte [0xFF] everywhere. *)
Definition state_on_ones : State := MemoryManager_new 10 (Mem.filled 255) 4096.

(** The free list as a list of block indices: [p] is the address of the
    first block of [fl], whose link is the address of the second, and so
    on; the link of the last is null. *)
Fixpoint chained (m : Mem.t) (base size : Z) (p : Z) (fl : list Z) : Prop :=
  match fl with
  | [] => p = 0
  | i :: rest =>
      p = block_address base size i
      /\ chained m base size (Mem.load64 m p) rest
  end.

(** The invariant of the pool for [size] at [base] with [n] blocks, for
    the free list [fl] and the set [A] of blocks that are handed out: the
    free list is [fl], no block is twice in it, no block of it is handed
    out, and the bit of every block that is handed out is 1. *)
Definition pool_inv (size base n : Z) (st : State) (fl : list Z) (A : gset Z)
  : Prop :=
  mPool st !! size = Some base /\ mNumBlocksPerPool st = n /\
  chained (memory st) base size (free_list_head st size) fl /\
  NoDup fl /\
  (forall i, i ∈ fl -> 0 <= i < n /\ i ∉ A) /\
  (forall i, i ∈ A -> 0 <= i < n /\ allocation_bit st size i <> 0).



(** The bit of block [i] in the store [m], for the head slot at [last]. *)
Definition bit_in_store (m : Mem.t) (last i : Z) : Z :=
  Z.land (Mem.load8 m (last + 8 + i / 8)) (Z.shiftl 1 (shiftValue i)).

(** The registry and the arrays that [new] handed out fit together: the
    arrays lie below the next address of the runtime, every pointer of the
    registry that is not null is the start of such an array, and no two
    sizes share one. *)
Definition registry_sound (st : State) : Prop :=
  0 < heap_next st /\
  (forall p len, arrays st !! p = Some len -> 0 < p < heap_next st) /\
  (forall size p, mPool st !! size = Some p -> p <> 0 ->
     is_Some (arrays st !! p)) /\
  (forall s1 s2 p, mPool st !! s1 = Some p -> mPool st !! s2 = Some p ->
     p <> 0 -> s1 = s2).

(** Every array that [new] handed out is the pool of some size. *)
Definition no_array_lost (st : State) : Prop :=
  forall p, is_Some (arrays st !! p) -> exists size, mPool st !! size = Some p.

(** * Properties *)

(** In a proof about [Allocate]: the test of line 112, with the two ways
    out of the function. *)
Ltac destruct_head_test :=
  match goal with
  | |- context [if Z.eqb ?a 0 then _ else _] =>
      destruct (Z.eqb a 0); cbn [snd]
  end.

(** ** The byte store *)

Module MemFacts.
Import Mem.

Lemma load8_range m a : 0 <= load8 m a < 256.
Proof. unfold load8. apply Z.mod_pos_bound. lia. Qed.

Lemma load64_range m a : 0 <= load64 m a < 2 ^ 64.
Proof.
  unfold load64.
  pose proof (load8_range m a). pose proof (load8_range m (a + 1)).
  pose proof (load8_range m (a + 2)). pose proof (load8_range m (a + 3)).
  pose proof (load8_range m (a + 4)). pose proof (load8_range m (a + 5)).
  pose proof (load8_range m (a + 6)). pose proof (load8_range m (a + 7)).
  change (2 ^ 64) with 18446744073709551616. lia.
Qed.

Lemma load8_store8_same m a v : load8 (store8 m a v) a = v mod 256.
Proof.
  unfold load8, store8. rewrite Z.eqb_refl. apply Z.mod_mod. lia.
Qed.

Lemma load8_store8_other m a v x : x <> a -> load8 (store8 m a v) x = load8 m x.
Proof.
  intros Hne. unfold load8, store8.
  destruct (Z.eqb_spec x a); [contradiction | reflexivity].
Qed.

Lemma load8_store64_inside m a v x :
  a <= x < a + 8 -> load8 (store64 m a v) x = (v / 256 ^ (x - a)) mod 256.
Proof.
  intros Hin. unfold load8, store64.
  destruct (Z.leb_spec a x); [| lia].
  destruct (Z.ltb_spec x (a + 8)); [| lia].
  simpl. apply Z.mod_mod. lia.
Qed.

Lemma load8_store64_outside m a v x :
  x < a \/ a + 8 <= x -> load8 (store64 m a v) x = load8 m x.
Proof.
  intros Hout. unfold load8, store64.
  destruct (Z.leb_spec a x); destruct (Z.ltb_spec x (a + 8));
    simpl; try reflexivity; lia.
Qed.

Lemma load64_store8_outside m a v b :
  a < b \/ b + 8 <= a -> load64 (store8 m a v) b = load64 m b.
Proof.
  intros Hout. unfold load64.
  rewrite !load8_store8_other by lia. reflexivity.
Qed.

Lemma load64_store64_apart m a v b :
  b + 8 <= a \/ a + 8 <= b -> load64 (store64 m a v) b = load64 m b.
Proof.
  intros Hout. unfold load64.
  rewrite !load8_store64_outside by lia. reflexivity.
Qed.

(** Eight bytes, least significant first, make the value modulo [2^64]. *)
Lemma little_endian_bytes v :
  v mod 256
  + 256 * ((v / 256 ^ 1) mod 256 + 256 * ((v / 256 ^ 2) mod 256 + 256 *
    ((v / 256 ^ 3) mod 256 + 256 * ((v / 256 ^ 4) mod 256 + 256 *
    ((v / 256 ^ 5) mod 256 + 256 * ((v / 256 ^ 6) mod 256 + 256 *
    ((v / 256 ^ 7) mod 256)))))))
  = v mod 2 ^ 64.
Proof.
  assert (Hstep : forall k, 0 <= k ->
            v / 256 ^ k = 256 * (v / 256 ^ (k + 1)) + (v / 256 ^ k) mod 256).
  { intros k Hk. rewrite Z.pow_add_r by lia. rewrite <- Z.div_div by lia.
    change (256 ^ 1) with 256. apply Z.div_mod. lia. }
  pose proof (Hstep 0 ltac:(lia)) as H0. pose proof (Hstep 1 ltac:(lia)) as H1.
  pose proof (Hstep 2 ltac:(lia)) as H2. pose proof (Hstep 3 ltac:(lia)) as H3.
  pose proof (Hstep 4 ltac:(lia)) as H4. pose proof (Hstep 5 ltac:(lia)) as H5.
  pose proof (Hstep 6 ltac:(lia)) as H6. pose proof (Hstep 7 ltac:(lia)) as H7.
  change (0 + 1) with 1 in H0. change (1 + 1) with 2 in H1.
  change (2 + 1) with 3 in H2. change (3 + 1) with 4 in H3.
  change (4 + 1) with 5 in H4. change (5 + 1) with 6 in H5.
  change (6 + 1) with 7 in H6. change (7 + 1) with 8 in H7.
  rewrite Z.pow_0_r, Z.div_1_r in H0.
  pose proof (Z.mod_pos_bound v 256 ltac:(lia)).
  pose proof (Z.mod_pos_bound (v / 256 ^ 1) 256 ltac:(lia)).
  pose proof (Z.mod_pos_bound (v / 256 ^ 2) 256 ltac:(lia)).
  pose proof (Z.mod_pos_bound (v / 256 ^ 3) 256 ltac:(lia)).
  pose proof (Z.mod_pos_bound (v / 256 ^ 4) 256 ltac:(lia)).
  pose proof (Z.mod_pos_bound (v / 256 ^ 5) 256 ltac:(lia)).
  pose proof (Z.mod_pos_bound (v / 256 ^ 6) 256 ltac:(lia)).
  pose proof (Z.mod_pos_bound (v / 256 ^ 7) 256 ltac:(lia)).
  apply Z.mod_unique_pos with (q := v / 256 ^ 8).
  - change (2 ^ 64) with 18446744073709551616. lia.
  - change (2 ^ 64) with 18446744073709551616. lia.
Qed.

Lemma load64_store64_same m a v : load64 (store64 m a v) a = v mod 2 ^ 64.
Proof.
  unfold load64.
  rewrite !load8_store64_inside by lia.
  replace (a - a) with 0 by lia.
  replace (a + 1 - a) with 1 by lia. replace (a + 2 - a) with 2 by lia.
  replace (a + 3 - a) with 3 by lia. replace (a + 4 - a) with 4 by lia.
  replace (a + 5 - a) with 5 by lia. replace (a + 6 - a) with 6 by lia.
  replace (a + 7 - a) with 7 by lia.
  rewrite Z.pow_0_r, Z.div_1_r. apply little_endian_bytes.
Qed.

Lemma load64_store64_value m a v :
  0 <= v < 2 ^ 64 -> load64 (store64 m a v) a = v.
Proof. intros Hv. rewrite load64_store64_same. apply Z.mod_small. exact Hv. Qed.

End MemFacts.

(** ** Bits of the allocation bit field *)

Lemma shiftValue_range index : 0 <= shiftValue index <= 7.
Proof.
  unfold shiftValue, NUMBITSPERBYTE.
  pose proof (Z.mod_pos_bound index 8 ltac:(lia)). lia.
Qed.

Lemma land_single_bit b s :
  0 <= s -> Z.land b (Z.shiftl 1 s) = if Z.testbit b s then 2 ^ s else 0.
Proof.
  intros Hs. rewrite Z.shiftl_1_l. apply Z.bits_inj'. intros k Hk.
  rewrite Z.land_spec, Z.pow2_bits_eqb by lia.
  destruct (Z.eqb_spec s k) as [-> | Hne].
  - rewrite andb_true_r. destruct (Z.testbit b k) eqn:Hb.
    + rewrite Z.pow2_bits_true by lia. reflexivity.
    + rewrite Z.bits_0. reflexivity.
  - rewrite andb_false_r. destruct (Z.testbit b s).
    + rewrite Z.pow2_bits_false by lia. reflexivity.
    + rewrite Z.bits_0. reflexivity.
Qed.

Lemma bit_clear_after_xor b s :
  0 <= s <= 7 -> Z.land b (Z.shiftl 1 s) <> 0 ->
  Z.land (Z.lxor b (Z.shiftl 1 s) mod 256) (Z.shiftl 1 s) = 0.
Proof.
  intros Hs Hset. rewrite land_single_bit in Hset by lia.
  rewrite land_single_bit by lia.
  destruct (Z.testbit b s) eqn:Hb; [| congruence].
  change 256 with (2 ^ 8). rewrite Z.mod_pow2_bits_low by lia.
  rewrite Z.lxor_spec, Hb, Z.shiftl_1_l, Z.pow2_bits_true by lia.
  reflexivity.
Qed.

Lemma bit_set_after_or b s :
  0 <= s <= 7 -> Z.land (Z.lor b (Z.shiftl 1 s) mod 256) (Z.shiftl 1 s) = 2 ^ s.
Proof.
  intros Hs. rewrite land_single_bit by lia.
  change 256 with (2 ^ 8). rewrite Z.mod_pow2_bits_low by lia.
  rewrite Z.lor_spec, Z.shiftl_1_l, Z.pow2_bits_true by lia.
  rewrite orb_true_r. reflexivity.
Qed.

(** ** The registry *)

Lemma mPool_index_present st size p :
  mPool st !! size = Some p -> mPool_index size st = (p, st).
Proof. intros H. unfold mPool_index. rewrite H. reflexivity. Qed.

Lemma mPool_index_absent st size :
  mPool st !! size = None ->
  mPool_index size st = (0, set_mPool (<[size := 0]> (mPool st)) st).
Proof. intros H. unfold mPool_index. rewrite H. reflexivity. Qed.

(** ** The layout of a pool *)

Lemma lastElementPtr_fits base size n :
  pool_fits base size n ->
  lastElementPtr base size n = base + 8 * (size / 8 * n).
Proof.
  intros (Hb & Hs & Hn & Hfit). unfold lastElementPtr, wrap64, sizeof_ptr in *.
  unfold NUMBITSPERBYTE in *.
  assert (0 <= size / 8) by (apply Z.div_pos; lia).
  assert (0 <= size / 8 * n) by lia.
  assert (0 <= n / 8) by (apply Z.div_pos; lia).
  apply Z.mod_small. lia.
Qed.

Lemma index_in_blocks base size n block :
  pool_fits base size n -> in_blocks base size n block ->
  0 <= indexBlockAllocated block base size < n.
Proof.
  intros Hfit [Hlo Hhi]. rewrite lastElementPtr_fits in Hhi by exact Hfit.
  destruct Hfit as (Hb & Hs & Hn & Hfit).
  unfold indexBlockAllocated, wrap32, wrap64, sizeof_ptr, NUMBITSPERBYTE in *.
  assert (0 <= size / 8) by (apply Z.div_pos; lia).
  assert (0 <= size / 8 * n) by lia.
  assert (0 <= n / 8) by (apply Z.div_pos; lia).
  assert (8 * (size / 8) <= size) by (apply Z.mul_div_le; lia).
  assert (8 * (size / 8 * n) <= size * n) by nia.
  rewrite (Z.mod_small (block - base)) by lia.
  assert (0 <= (block - base) / size < n).
  { split; [apply Z.div_pos; lia |]. apply Z.div_lt_upper_bound; lia. }
  pose proof (Z.mod_pos_bound ((block - base) / size) (2 ^ 32) ltac:(lia)).
  pose proof (Z.mod_le ((block - base) / size) (2 ^ 32) ltac:(lia) ltac:(lia)).
  lia.
Qed.

Lemma desiredByte_fits base size n index :
  pool_fits base size n -> 0 <= index < n ->
  desiredByte (lastElementPtr base size n) index
  = base + 8 * (size / 8 * n) + 8 + index / 8.
Proof.
  intros Hfit Hidx. rewrite lastElementPtr_fits by exact Hfit.
  destruct Hfit as (Hb & Hs & Hn & Hfit).
  unfold desiredByte, wrap64, sizeof_ptr, NUMBITSPERBYTE in *.
  assert (0 <= size / 8) by (apply Z.div_pos; lia).
  assert (0 <= size / 8 * n) by lia.
  assert (0 <= index / 8) by (apply Z.div_pos; lia).
  assert (index / 8 <= n / 8) by (apply Z.div_le_mono; lia).
  apply Z.mod_small. lia.
Qed.

(** ** Free and Allocate on a pool that exists *)

Lemma allocation_bit_present st size base index :
  mPool st !! size = Some base ->
  allocation_bit st size index =
  Z.land (Mem.load8 (memory st)
            (desiredByte (lastElementPtr base size (mNumBlocksPerPool st))
                         index))
         (Z.shiftl 1 (shiftValue index)).
Proof. intros H. unfold allocation_bit. rewrite H. reflexivity. Qed.

Lemma free_list_head_present st size base :
  mPool st !! size = Some base ->
  free_list_head st size =
  Mem.load64 (memory st) (lastElementPtr base size (mNumBlocksPerPool st)).
Proof. intros H. unfold free_list_head. rewrite H. reflexivity. Qed.

Lemma Free_present st size base block :
  mPool st !! size = Some base -> block <> 0 ->
  Free size block st =
    if allocation_bit st size (indexBlockAllocated block base size) =? 0
    then (DoubleFreeAttempt, block, st)
    else (Freed, 0,
          set_memory
            (store_after_free (memory st) base size (mNumBlocksPerPool st)
                              block) st).
Proof.
  intros Hpool Hblock. unfold Free.
  destruct (Z.eqb_spec block 0) as [? | _]; [contradiction |].
  rewrite (mPool_index_present _ _ _ Hpool).
  rewrite (allocation_bit_present _ _ _ _ Hpool). reflexivity.
Qed.

Lemma Allocate_present st size base :
  mPool st !! size = Some base -> base <> 0 ->
  Allocate size st =
    if free_list_head st size =? 0 then (0, st)
    else (free_list_head st size,
          set_memory
            (store_after_allocate (memory st) base size (mNumBlocksPerPool st))
            st).
Proof.
  intros Hpool Hbase. unfold Allocate.
  rewrite (mPool_index_present _ _ _ Hpool).
  destruct (Z.eqb_spec base 0) as [? | _]; [contradiction |].
  rewrite (mPool_index_present _ _ _ Hpool).
  rewrite (free_list_head_present _ _ _ Hpool). reflexivity.
Qed.

Lemma Free_freed st size base block :
  mPool st !! size = Some base -> block <> 0 ->
  exit_of (Free size block st) = Freed ->
  allocation_bit st size (indexBlockAllocated block base size) <> 0 /\
  Free size block st =
    (Freed, 0,
     set_memory
       (store_after_free (memory st) base size (mNumBlocksPerPool st) block)
       st).
Proof.
  intros Hpool Hblock Hfree. rewrite (Free_present _ _ _ _ Hpool Hblock) in *.
  destruct (Z.eqb_spec
              (allocation_bit st size (indexBlockAllocated block base size)) 0)
    as [Hz | Hnz].
  - discriminate.
  - split; [exact Hnz | reflexivity].
Qed.

Lemma head_after_free m base size n block :
  0 <= block < 2 ^ 64 ->
  Mem.load64 (store_after_free m base size n block) (lastElementPtr base size n)
  = block.
Proof.
  intros Hb. unfold store_after_free. cbv zeta.
  apply MemFacts.load64_store64_value. exact Hb.
Qed.

(** *** C9: freeing a null pointer *)

(** C9.  In every allocator state, [Free] called with a null pointer leaves
    through the invalid-pointer exit and changes nothing: the registry, the
    free lists and the bit fields (the whole state) are as before, and the
    caller's pointer is still null. *)
Theorem free_null_is_noop (st : State) (size : Z) :
  Free size 0 st = (InvalidPointerPassed, 0, st).
Proof. reflexivity. Qed.

(** *** C6: the freed block is the next one handed out *)

(** C6.  In every state in which the pool for [size] exists, if [Free] of
    the address [block] succeeds, then the free-list head is [block] and
    the [Allocate] that follows for the same size returns exactly
    [block]. *)
Theorem free_then_allocate_returns_block (st : State) (size base block : Z) :
  mPool st !! size = Some base -> base <> 0 ->
  0 < block < 2 ^ 64 ->
  exit_of (Free size block st) = Freed ->
  free_list_head (state_of (Free size block st)) size = block /\
  fst (Allocate size (state_of (Free size block st))) = block.
Proof.
  intros Hpool Hbase Hblock Hfree.
  assert (Hnz : block <> 0) by lia.
  destruct (Free_freed _ _ _ _ Hpool Hnz Hfree) as [_ ->].
  unfold state_of. cbn [snd].
  set (st1 := set_memory _ st).
  assert (Hpool1 : mPool st1 !! size = Some base) by exact Hpool.
  assert (Hhead : free_list_head st1 size = block).
  { rewrite (free_list_head_present _ _ _ Hpool1). subst st1.
    unfold set_memory. cbn [memory mNumBlocksPerPool].
    apply head_after_free. lia. }
  split; [exact Hhead |].
  rewrite (Allocate_present _ _ _ Hpool1 Hbase), Hhead.
  destruct (Z.eqb_spec block 0) as [? | _]; [lia | reflexivity].
Qed.

Lemma free_then_allocate_returns_block_witness :
  free_list_head (state_of (Free 16 4240 state_all_allocated)) 16 = 4240 /\
  fst (Allocate 16 (state_of (Free 16 4240 state_all_allocated))) = 4240.
Proof.
  apply (free_then_allocate_returns_block state_all_allocated 16 4192 4240).
  - vm_compute. reflexivity.
  - lia.
  - lia.
  - vm_compute. reflexivity.
Defined.

(** *** C5: a double free is rejected and changes nothing *)

Lemma bit_after_free m base size n block :
  pool_fits base size n -> in_blocks base size n block ->
  let index := indexBlockAllocated block base size in
  let byte := desiredByte (lastElementPtr base size n) index in
  Z.land (Mem.load8 m byte) (Z.shiftl 1 (shiftValue index)) <> 0 ->
  Z.land (Mem.load8 (store_after_free m base size n block) byte)
         (Z.shiftl 1 (shiftValue index)) = 0.
Proof.
  intros Hfit Hin index byte Hset.
  pose proof (index_in_blocks _ _ _ _ Hfit Hin) as Hidx. fold index in Hidx.
  pose proof (desiredByte_fits _ _ _ _ Hfit Hidx) as Hbyte. fold byte in Hbyte.
  pose proof (lastElementPtr_fits _ _ _ Hfit) as Hlast.
  destruct Hin as [Hlo Hhi]. unfold sizeof_ptr in Hhi.
  assert (0 <= index / 8) by (apply Z.div_pos; lia).
  unfold store_after_free. cbv zeta. fold index. fold byte.
  rewrite MemFacts.load8_store64_outside by lia.
  rewrite MemFacts.load8_store64_outside by lia.
  rewrite MemFacts.load8_store8_same.
  apply bit_clear_after_xor; [apply shiftValue_range | exact Hset].
Qed.

(** C5.  In a state in which the pool for [size] exists, a [Free] of a
    non-null address whose allocation bit is already 0 leaves through the
    double-free exit and changes nothing: the state, and with it the free
    list and the bit field, and the caller's pointer are as before.  And
    when a first [Free] of an address inside the blocks of the pool has
    succeeded, a second [Free] of the same address leaves through the
    double-free exit, and the state is identical to the state after the
    first. *)
Theorem double_free_changes_nothing (st : State) (size base block : Z) :
  mPool st !! size = Some base -> block <> 0 ->
  (allocation_bit st size (indexBlockAllocated block base size) = 0 ->
   Free size block st = (DoubleFreeAttempt, block, st))
  /\
  (pool_fits base size (mNumBlocksPerPool st) ->
   in_blocks base size (mNumBlocksPerPool st) block ->
   exit_of (Free size block st) = Freed ->
   Free size block (state_of (Free size block st))
   = (DoubleFreeAttempt, block, state_of (Free size block st))).
Proof.
  intros Hpool Hblock.
  assert (Hfirst : forall s, mPool s !! size = Some base ->
            allocation_bit s size (indexBlockAllocated block base size) = 0 ->
            Free size block s = (DoubleFreeAttempt, block, s)).
  { intros s Hs Hbit. rewrite (Free_present _ _ _ _ Hs Hblock), Hbit.
    reflexivity. }
  split; [apply Hfirst; exact Hpool |].
  intros Hfit Hin Hfree.
  destruct (Free_freed _ _ _ _ Hpool Hblock Hfree) as [Hset ->].
  unfold state_of. cbn [snd].
  apply Hfirst; [exact Hpool |].
  rewrite (allocation_bit_present _ _ _ _ Hpool) in Hset.
  erewrite allocation_bit_present by exact Hpool.
  unfold set_memory. cbn [memory mNumBlocksPerPool].
  apply bit_after_free; assumption.
Qed.

Lemma double_free_changes_nothing_witness :
  Free 16 4240 (MemoryManager_new 10 (Mem.filled 0) 4096)
  = (DoubleFreeAttempt, 4240, MemoryManager_new 10 (Mem.filled 0) 4096)
  /\
  Free 16 4240 (state_of (Free 16 4240 state_all_allocated))
  = (DoubleFreeAttempt, 4240, state_of (Free 16 4240 state_all_allocated)).
Proof.
  split.
  - refine (proj1 (double_free_changes_nothing
                      (MemoryManager_new 10 (Mem.filled 0) 4096)
                      16 4192 4240 _ _) _).
    + vm_compute. reflexivity.
    + lia.
    + vm_compute. reflexivity.
  - refine (proj2 (double_free_changes_nothing
                      state_all_allocated 16 4192 4240 _ _) _ _ _).
    + vm_compute. reflexivity.
    + lia.
    + unfold pool_fits, sizeof_ptr, NUMBITSPERBYTE. vm_compute.
      repeat split; congruence.
    + unfold in_blocks. vm_compute. split; congruence.
    + vm_compute. reflexivity.
Defined.

(** ** The free list of a fresh pool *)

Lemma load64_ext m m' a :
  (forall x, a <= x < a + 8 -> Mem.load8 m' x = Mem.load8 m x) ->
  Mem.load64 m' a = Mem.load64 m a.
Proof.
  intros H. unfold Mem.load64. rewrite !H by lia. reflexivity.
Qed.

Lemma link_blocks_spec k :
  forall stride current m,
    1 <= stride -> 0 <= current ->
    current + 8 * (stride * Z.of_nat k) < 2 ^ 64 ->
    fst (link_blocks k stride current m) = current + 8 * (stride * Z.of_nat k)
    /\ (forall i, 0 <= i < Z.of_nat k ->
          Mem.load64 (snd (link_blocks k stride current m))
                     (current + 8 * (stride * i))
          = current + 8 * (stride * (i + 1)))
    /\ (forall x, x < current \/ current + 8 * (stride * Z.of_nat k) <= x ->
          Mem.load8 (snd (link_blocks k stride current m)) x = Mem.load8 m x).
Proof.
  induction k as [| k IH]; intros stride current m Hs Hc Hfit.
  - cbn [link_blocks fst snd].
    split; [lia |]. split; [intros i Hi; lia | intros x _; reflexivity].
  - cbn [link_blocks]. unfold sizeof_ptr.
    assert (Hnext : wrap64 (current + 8 * stride) = current + 8 * stride).
    { unfold wrap64. apply Z.mod_small. nia. }
    rewrite Hnext.
    destruct (IH stride (current + 8 * stride)
                 (Mem.store64 m current (current + 8 * stride))
                 Hs ltac:(lia) ltac:(nia)) as (Hend & Hlinks & Hout).
    split; [rewrite Hend; nia |]. split.
    + intros i Hi. destruct (Z.eq_dec i 0) as [-> | Hi0].
      * replace (current + 8 * (stride * 0)) with current by lia.
        rewrite (load64_ext (Mem.store64 m current (current + 8 * stride))).
        -- rewrite MemFacts.load64_store64_value by nia. f_equal; lia.
        -- intros x Hx. apply Hout. left. lia.
      * replace (current + 8 * (stride * i))
          with (current + 8 * stride + 8 * (stride * (i - 1))) by lia.
        rewrite Hlinks by lia. lia.
    + intros x Hx. rewrite Hout by nia.
      apply MemFacts.load8_store64_outside. nia.
Qed.

(** The pool that [InitializePool] builds, for a block size of 8 to 2047
    bytes and a block count that [uint16_t] holds: all [n] blocks are
    chained, block 0 first. *)
Lemma InitializePool_linked st size n :
  8 <= size < 2048 -> 0 <= n < 65536 ->
  0 < heap_next st ->
  heap_next st + (size * n + 8 + n / 8 + 1) <= 2 ^ 64 ->
  mPool (InitializePool size n st) !! size = Some (heap_next st)
  /\ mNumBlocksPerPool (InitializePool size n st) = mNumBlocksPerPool st
  /\ linked_from (memory (InitializePool size n st)) (heap_next st) size n 0.
Proof.
  intros Hsize Hn Hbase Hfit.
  set (base := heap_next st) in *.
  set (stride := size / 8).
  assert (Hstride : 1 <= stride < 256).
  { subst stride. split.
    - apply Z.div_le_lower_bound; lia.
    - apply Z.div_lt_upper_bound; lia. }
  assert (Hpitch : 8 * stride <= size)
    by (subst stride; apply Z.mul_div_le; lia).
  assert (Hn8 : 0 <= n / 8) by (apply Z.div_pos; lia).
  unfold InitializePool, new_char_array, set_mPool, set_memory.
  cbn [mPool memory mNumBlocksPerPool heap_next arrays].
  unfold wrap16, wrap8, sizeof_ptr. fold base.
  rewrite (Z.mod_small n) by lia. fold stride.
  rewrite (Z.mod_small stride) by (change (2 ^ 8) with 256; lia).
  destruct (link_blocks (Z.to_nat (n - 1)) stride base (memory st))
    as [current m1] eqn:Hloop.
  cbn [mPool memory mNumBlocksPerPool].
  split; [apply lookup_insert_eq |]. split; [reflexivity |].
  assert (Hk : 0 <= Z.of_nat (Z.to_nat (n - 1)) /\
               (1 <= n -> Z.of_nat (Z.to_nat (n - 1)) = n - 1) /\
               (n = 0 -> Z.of_nat (Z.to_nat (n - 1)) = 0)) by lia.
  destruct Hk as (Hk0 & Hk1 & Hk2).
  destruct (link_blocks_spec (Z.to_nat (n - 1)) stride base (memory st)
              ltac:(lia) ltac:(lia) ltac:(nia)) as (Hend & Hlinks & Hout).
  rewrite Hloop in Hend, Hlinks, Hout. cbn [fst snd] in Hend, Hlinks, Hout.
  unfold linked_from, lastElementPtr, block_address, sizeof_ptr.
  fold stride.
  assert (Hlast : wrap64 (base + 8 * (stride * n)) = base + 8 * (stride * n)).
  { unfold wrap64. apply Z.mod_small. nia. }
  rewrite Hlast.
  destruct (Z.eq_dec n 0) as [-> | Hn0].
  - (* no block: the loop does not run *)
    rewrite Hk2 in Hend by reflexivity.
    replace (base + 8 * (stride * 0)) with base in * by lia. subst current.
    split; [| intros i Hi; lia].
    cbn [Z.ltb Z.compare].
    assert (Hwrap : wrap64 (base + 8 * stride) = base + 8 * stride \/
                    wrap64 (base + 8 * stride) = base + 8 * stride - 2 ^ 64).
    { unfold wrap64.
      destruct (Z_lt_ge_dec (base + 8 * stride) (2 ^ 64)) as [Hlt | Hge].
      - left. apply Z.mod_small. lia.
      - right. symmetry. apply Z.mod_unique_pos with (q := 1); lia. }
    rewrite MemFacts.load64_store64_apart by lia.
    apply MemFacts.load64_store64_value. lia.
  - assert (Hcur : current = base + 8 * (stride * (n - 1))).
    { rewrite Hend, Hk1 by lia. reflexivity. }
    assert (Hcur' : wrap64 (current + 8 * stride) = base + 8 * (stride * n)).
    { rewrite Hcur. unfold wrap64. rewrite Z.mod_small by nia. lia. }
    rewrite Hcur'. split.
    + rewrite MemFacts.load64_store64_value by lia.
      destruct (Z.ltb_spec 0 n); [f_equal; lia | lia].
    + intros i Hi.
      rewrite MemFacts.load64_store64_apart by nia.
      destruct (Z.eq_dec i (n - 1)) as [-> | Hi'].
      * rewrite <- Hcur.
        rewrite MemFacts.load64_store64_value by lia.
        destruct (Z.ltb_spec (n - 1 + 1) n); [lia | reflexivity].
      * rewrite MemFacts.load64_store64_apart by (rewrite Hcur; nia).
        rewrite Hlinks by lia.
        destruct (Z.ltb_spec (i + 1) n); [reflexivity | lia].
Qed.

(** ** Allocating from a chained pool *)

Lemma block_address_in_blocks base size n i :
  pool_fits base size n -> 8 <= size -> 0 <= i < n ->
  in_blocks base size n (block_address base size i).
Proof.
  intros Hfit Hsize Hi. unfold in_blocks.
  rewrite (lastElementPtr_fits _ _ _ Hfit).
  unfold block_address, sizeof_ptr.
  assert (1 <= size / 8) by (apply Z.div_le_lower_bound; lia).
  split; nia.
Qed.

Lemma Allocate_linked st size base n k :
  pool_fits base size n -> 8 <= size ->
  pool_linked st size base n k -> 0 <= k < n ->
  fst (Allocate size st) = block_address base size k
  /\ pool_linked (snd (Allocate size st)) size base n (k + 1).
Proof.
  intros Hfit Hsize (Hpool & Hn & Hhead & Hlinks) Hk.
  pose proof Hfit as (Hbase & _ & _ & Hroom).
  assert (Hstride : 1 <= size / 8) by (apply Z.div_le_lower_bound; lia).
  pose proof (lastElementPtr_fits _ _ _ Hfit) as Hlast.
  assert (Hblock : forall i, 0 <= i < n ->
            base <= block_address base size i /\
            block_address base size i + 8 <= base + 8 * (size / 8 * n)).
  { intros i Hi. unfold block_address, sizeof_ptr. split; nia. }
  rewrite (Allocate_present _ _ _ Hpool ltac:(lia)).
  rewrite (free_list_head_present _ _ _ Hpool), Hn, Hhead.
  destruct (Z.ltb_spec k n) as [_ | ?]; [| lia].
  destruct (Hblock k Hk) as [Hlo Hhi].
  destruct (Z.eqb_spec (block_address base size k) 0) as [? | _]; [lia |].
  cbn [fst snd]. split; [reflexivity |].
  unfold pool_linked, set_memory. cbn [mPool mNumBlocksPerPool memory].
  split; [exact Hpool |]. split; [exact Hn |].
  unfold store_after_allocate. cbv zeta. rewrite Hhead.
  destruct (Z.ltb_spec k n) as [_ | ?]; [| lia].
  pose proof (block_address_in_blocks _ _ _ _ Hfit Hsize Hk) as Hin.
  pose proof (index_in_blocks _ _ _ _ Hfit Hin) as Hidx.
  pose proof (desiredByte_fits _ _ _ _ Hfit Hidx) as Hbyte.
  set (index := indexBlockAllocated (block_address base size k) base size) in *.
  assert (0 <= index / 8) by (apply Z.div_pos; lia).
  rewrite Hbyte, Hlast.
  set (byte := base + 8 * (size / 8 * n) + 8 + index / 8).
  assert (Hnext : forall i, 0 <= i < n ->
            Mem.load64 (Mem.store8 (memory st) byte
                          (Z.lor (Mem.load8 (memory st) byte)
                                 (Z.shiftl 1 (shiftValue index))))
                       (block_address base size i)
            = Mem.load64 (memory st) (block_address base size i)).
  { intros i Hi. destruct (Hblock i Hi).
    apply MemFacts.load64_store8_outside. subst byte. lia. }
  unfold linked_from. rewrite Hlast. split.
  - rewrite MemFacts.load64_store64_same, Hnext by lia.
    rewrite (Hlinks k) by lia.
    destruct (Z.ltb_spec (k + 1) n).
    + destruct (Hblock (k + 1) ltac:(lia)).
      apply Z.mod_small. unfold sizeof_ptr, NUMBITSPERBYTE in Hroom.
      assert (0 <= n / 8) by (apply Z.div_pos; lia). lia.
    + reflexivity.
  - intros i Hi. destruct (Hblock i ltac:(lia)).
    rewrite MemFacts.load64_store64_apart by lia.
    rewrite Hnext by lia. apply Hlinks. lia.
Qed.

Lemma Allocate_exhausted st size base n :
  base <> 0 -> pool_linked st size base n n -> Allocate size st = (0, st).
Proof.
  intros Hbase (Hpool & Hn & Hhead & _).
  rewrite (Allocate_present _ _ _ Hpool Hbase).
  rewrite (free_list_head_present _ _ _ Hpool), Hn, Hhead.
  rewrite Z.ltb_irrefl. reflexivity.
Qed.

(** An [Allocate] that fails on an existing pool leaves the state as it
    was. *)
Lemma Allocate_null_unchanged st size base :
  mPool st !! size = Some base -> base <> 0 ->
  fst (Allocate size st) = 0 -> Allocate size st = (0, st).
Proof.
  intros Hpool Hbase. rewrite (Allocate_present _ _ _ Hpool Hbase).
  destruct (Z.eqb_spec (free_list_head st size) 0) as [_ | Hne].
  - reflexivity.
  - cbn [fst]. intros ?. contradiction.
Qed.

Lemma block_addresses_succ base size k j :
  block_addresses base size k (S j)
  = block_address base size k :: block_addresses base size (k + 1) j.
Proof.
  unfold block_addresses. cbn [seq map]. f_equal.
  - f_equal. lia.
  - rewrite <- seq_shift, map_map. apply map_ext. intros i. f_equal. lia.
Qed.

Lemma allocate_n_linked j :
  forall st size base n k,
    pool_fits base size n -> 8 <= size ->
    pool_linked st size base n k -> 0 <= k -> k + Z.of_nat j <= n ->
    fst (allocate_n j size st) = block_addresses base size k j
    /\ pool_linked (snd (allocate_n j size st)) size base n (k + Z.of_nat j).
Proof.
  induction j as [| j IH]; intros st size base n k Hfit Hsize Hlinked Hk Hkj.
  - cbn [allocate_n fst snd]. split; [reflexivity |].
    replace (k + Z.of_nat 0) with k by lia. exact Hlinked.
  - cbn [allocate_n].
    destruct (Allocate_linked _ _ _ _ _ Hfit Hsize Hlinked ltac:(lia))
      as [Hp Hst].
    destruct (Allocate size st) as [p st1]. cbn [fst snd] in Hp, Hst.
    destruct (IH st1 size base n (k + 1) Hfit Hsize Hst ltac:(lia) ltac:(lia))
      as [Hps Hst2].
    destruct (allocate_n j size st1) as [ps st2]. cbn [fst snd] in *.
    split.
    + rewrite block_addresses_succ, Hp, Hps. reflexivity.
    + replace (k + Z.of_nat (S j)) with (k + 1 + Z.of_nat j) by lia.
      exact Hst2.
Qed.

Lemma block_addresses_nonnull base size k j :
  0 < base -> 0 < size -> 0 <= k ->
  Forall (fun p => p <> 0) (block_addresses base size k j).
Proof.
  intros Hbase Hsize Hk. unfold block_addresses. apply List.Forall_forall.
  intros p Hp. apply List.in_map_iff in Hp as (i & <- & _).
  unfold block_address, sizeof_ptr.
  assert (0 <= size / 8) by (apply Z.div_pos; lia). nia.
Qed.

Lemma block_addresses_NoDup base size k j :
  8 <= size -> NoDup (block_addresses base size k j).
Proof.
  intros Hsize. unfold block_addresses.
  assert (1 <= size / 8) by (apply Z.div_le_lower_bound; lia).
  apply NoDup_ListNoDup. apply Injective_map_NoDup; [| apply List.seq_NoDup].
  intros i i' Heq. unfold block_address, sizeof_ptr in Heq. nia.
Qed.

(** *** C4: a fresh pool gives out its blocks once each, then fails *)

Lemma linked_pool_exhausts st size base n :
  pool_fits base size n -> 8 <= size ->
  pool_linked st size base n 0 ->
  exhausts_after size n st.
Proof.
  intros Hfit Hsize Hlinked. pose proof Hfit as (Hb & _ & Hn & _).
  destruct (allocate_n_linked (Z.to_nat n) st size base n 0 Hfit
              Hsize Hlinked ltac:(lia) ltac:(lia)) as [Haddr Hfull].
  replace (0 + Z.of_nat (Z.to_nat n)) with n in Hfull by lia.
  unfold exhausts_after. cbv zeta. rewrite Haddr. split.
  - unfold block_addresses. rewrite length_map, length_seq. reflexivity.
  - split; [apply block_addresses_nonnull; lia |].
    split; [apply block_addresses_NoDup; lia |].
    apply (Allocate_exhausted _ size base n); [lia | exact Hfull].
Qed.

Lemma array_fits_pool base size n :
  8 <= size -> 0 <= n -> 0 < base ->
  base + (size * n + 8 + n / 8 + 1) <= 2 ^ 64 ->
  pool_fits base size n.
Proof.
  intros Hsize Hn Hb Hroom. unfold pool_fits, sizeof_ptr, NUMBITSPERBYTE.
  assert (8 * (size / 8) <= size) by (apply Z.mul_div_le; lia).
  assert (0 <= size / 8) by (apply Z.div_pos; lia).
  repeat split; try lia; nia.
Qed.

(** X1.  Exhaustion, where it holds.  Take a pool freshly built by
    [InitializePool] for a block size of 8 to 2047 bytes with [n] blocks,
    [n < 65536] being the block count of the allocator.  Then [n]
    consecutive calls of [Allocate] return [n] non-null, pairwise distinct
    addresses, and the next call returns null and leaves the state as it
    is.  More generally, whenever [Allocate] returns null on an existing
    pool, the state is unchanged. *)
Theorem fresh_pool_exhaustion (st : State) (size n : Z) :
  mNumBlocksPerPool st = n -> 0 <= n < 65536 -> 8 <= size < 2048 ->
  0 < heap_next st ->
  heap_next st + (size * n + 8 + n / 8 + 1) <= 2 ^ 64 ->
  exhausts_after size n (InitializePool size n st)
  /\ (forall s base,
        mPool s !! size = Some base -> base <> 0 ->
        fst (Allocate size s) = 0 -> Allocate size s = (0, s)).
Proof.
  intros Hn Hrange Hsize Hbase Hroom.
  destruct (InitializePool_linked st size n Hsize Hrange Hbase Hroom)
    as (Hpool & Hcount & Hlinked).
  rewrite Hn in Hcount. split.
  - apply (linked_pool_exhausts _ size (heap_next st) n).
    + apply array_fits_pool; lia.
    + lia.
    + split; [exact Hpool | split; [exact Hcount | exact Hlinked]].
  - intros s base. apply Allocate_null_unchanged.
Qed.

Lemma fresh_pool_exhaustion_witness :
  exhausts_after 16 10 (InitializePool 16 10 state_before_pool)
  /\ (forall s base,
        mPool s !! 16 = Some base -> base <> 0 ->
        fst (Allocate 16 s) = 0 -> Allocate 16 s = (0, s)).
Proof.
  apply (fresh_pool_exhaustion state_before_pool 16 10).
  - reflexivity.
  - lia.
  - lia.
  - vm_compute. reflexivity.
  - vm_compute. congruence.
Defined.

(** C4, at an input where it fails.  The allocator is built with ten
    blocks per pool and a type of 2048 bytes is allocated.  The stride of
    [InitializePool] is a [uint8_t] and [2048 / 8 = 256] becomes 0: every
    link and the head are written into block 0, while [Allocate] looks for
    the head ten blocks further, in bytes that were never written.  On a
    heap of zero bytes the first of the ten calls already returns null; on
    a heap of [0xCD] bytes the calls return the same address made of
    [0xCD] bytes again and again. *)
Theorem wide_blocks_are_never_linked :
  let st := MemoryManager_new 10 (Mem.filled 0) 4096 in
  let st' := MemoryManager_new 10 (Mem.filled 205) 4096 in
  wrap8 (2048 / sizeof_ptr) = 0
  /\ mPool (snd (Allocate 2048 st)) !! 2048 = Some 4704
  /\ arrays (snd (Allocate 2048 st)) !! 4704 = Some 20490
  /\ Mem.load64 (memory (snd (Allocate 2048 st))) 4704 = 4704
  /\ lastElementPtr 4704 2048 10 = 25184
  /\ fst (Allocate 2048 st) = 0
  /\ fst (allocate_n 2 2048 st')
     = [14829735431805717965; 14829735431805717965].
Proof. vm_compute. repeat split; reflexivity. Qed.

(** *** C1: a size class without a pool *)

(** C1.  When no pool was ever created for [size], [Free] of a non-null
    pointer has no exit that reports it: it takes the registry's indexing
    operator, which inserts a null entry for [size], and goes on with the
    null pointer as the pool, ending in the double-free exit or in the
    success exit. *)
Theorem free_of_unknown_size_inserts_null_entry (st : State) (size block : Z) :
  mPool st !! size = None -> block <> 0 ->
  mPool (state_of (Free size block st)) = <[size := 0]> (mPool st)
  /\ exit_of (Free size block st) <> InvalidPointerPassed
  /\ exit_of (Free size block st)
     = (if allocation_bit (set_mPool (<[size := 0]> (mPool st)) st) size
             (indexBlockAllocated block 0 size) =? 0
        then DoubleFreeAttempt else Freed).
Proof.
  intros Hnone Hblock.
  set (st1 := set_mPool (<[size := 0]> (mPool st)) st).
  assert (Hpool1 : mPool st1 !! size = Some 0) by apply lookup_insert_eq.
  assert (Hfree : Free size block st = Free size block st1).
  { unfold Free. destruct (Z.eqb_spec block 0) as [? | _]; [contradiction |].
    rewrite (mPool_index_absent _ _ Hnone).
    rewrite (mPool_index_present _ _ _ Hpool1). reflexivity. }
  rewrite Hfree, (Free_present _ _ _ _ Hpool1 Hblock).
  destruct (allocation_bit st1 size (indexBlockAllocated block 0 size) =? 0);
    unfold exit_of, state_of; cbn [fst snd]; repeat split; congruence.
Qed.

Lemma free_of_unknown_size_inserts_null_entry_witness :
  let st := MemoryManager_new 10 (Mem.filled 0) 4096 in
  mPool (state_of (Free 24 4096 st)) = <[24 := 0]> (mPool st)
  /\ exit_of (Free 24 4096 st) <> InvalidPointerPassed
  /\ exit_of (Free 24 4096 st)
     = (if allocation_bit (set_mPool (<[24 := 0]> (mPool st)) st) 24
             (indexBlockAllocated 4096 0 24) =? 0
        then DoubleFreeAttempt else Freed).
Proof.
  apply (free_of_unknown_size_inserts_null_entry
           (MemoryManager_new 10 (Mem.filled 0) 4096) 24 4096).
  - vm_compute. reflexivity.
  - lia.
Defined.

(** *** C2: addresses outside the pool *)

(** C2, as the code has it.  [Free] makes no range check.  For a non-null
    address whose computed block index lies outside [[0, blockCount)], it
    looks at the bit the index selects: when that bit is 0 it leaves
    through the double-free exit with the state unchanged; when it is 1 it
    takes the success path, nulls the caller's pointer and makes the
    address the head of the free list. *)
Theorem free_makes_no_range_check (st : State) (size base block : Z) :
  mPool st !! size = Some base ->
  0 < block < 2 ^ 64 ->
  ~ (0 <= indexBlockAllocated block base size < mNumBlocksPerPool st) ->
  (allocation_bit st size (indexBlockAllocated block base size) = 0 ->
   Free size block st = (DoubleFreeAttempt, block, st))
  /\
  (allocation_bit st size (indexBlockAllocated block base size) <> 0 ->
   exit_of (Free size block st) = Freed
   /\ pointer_of (Free size block st) = 0
   /\ free_list_head (state_of (Free size block st)) size = block).
Proof.
  intros Hpool Hblock _.
  assert (Hnz : block <> 0) by lia.
  rewrite (Free_present _ _ _ _ Hpool Hnz).
  split; intros Hbit.
  - rewrite Hbit. reflexivity.
  - destruct (Z.eqb_spec
                (allocation_bit st size (indexBlockAllocated block base size))
                0) as [? | _]; [contradiction |].
    unfold exit_of, pointer_of, state_of. cbn [fst snd].
    split; [reflexivity |]. split; [reflexivity |].
    erewrite free_list_head_present by exact Hpool.
    unfold set_memory. cbn [memory mNumBlocksPerPool].
    apply head_after_free. lia.
Qed.

(** The address [4176] is the head slot of the pool of 8-byte blocks at
    [4096]: block index 10 of 10.  Its bit is in the second byte of the bit
    field, which the array of 90 bytes contains. *)
Lemma free_out_of_range_is_accepted :
  mPool state_on_ones !! 8 = Some 4096
  /\ mNumBlocksPerPool state_on_ones = 10
  /\ arrays state_on_ones !! 4096 = Some 90
  /\ indexBlockAllocated 4176 4096 8 = 10
  /\ free_list_head state_on_ones 8 = 4096
  /\ exit_of (Free 8 4176 state_on_ones) = Freed
  /\ free_list_head (state_of (Free 8 4176 state_on_ones)) 8 = 4176
  /\ allocation_bit state_on_ones 8 10 = 32
  /\ allocation_bit (state_of (Free 8 4176 state_on_ones)) 8 10 = 0.
Proof. vm_compute. repeat split; reflexivity. Qed.

Lemma free_makes_no_range_check_witness :
  Free 8 4176 (MemoryManager_new 10 (Mem.filled 0) 4096)
  = (DoubleFreeAttempt, 4176, MemoryManager_new 10 (Mem.filled 0) 4096)
  /\
  (exit_of (Free 8 4176 state_on_ones) = Freed
   /\ pointer_of (Free 8 4176 state_on_ones) = 0
   /\ free_list_head (state_of (Free 8 4176 state_on_ones)) 8 = 4176).
Proof.
  split.
  - refine (proj1 (free_makes_no_range_check
                      (MemoryManager_new 10 (Mem.filled 0) 4096)
                      8 4096 4176 _ _ _) _).
    + vm_compute. reflexivity.
    + lia.
    + vm_compute. intros [_ H]. discriminate H.
    + vm_compute. reflexivity.
  - refine (proj2 (free_makes_no_range_check
                      state_on_ones 8 4096 4176 _ _ _) _).
    + vm_compute. reflexivity.
    + lia.
    + vm_compute. intros [_ H]. discriminate H.
    + vm_compute. discriminate.
Defined.

(** On a heap of zero bytes the bit that an index far outside the pool
    selects lies in another array.  The address [4616] is inside the array
    of the 32-byte pool; for the 8-byte pool at [4096] its block index is
    65 and its bit is read at [4192], the first byte of the 16-byte pool,
    which holds the low byte of a link.  [Free] is accepted: it alters that
    link, writes the old head of the 8-byte pool to [4616] and makes [4616]
    the head.  The 16-byte pool then hands out [4144], an address inside
    the array of the 8-byte pool. *)
Lemma free_out_of_range_reaches_other_pools :
  let st := MemoryManager_new 10 (Mem.filled 0) 4096 in
  let r := Free 8 4616 st in
  indexBlockAllocated 4616 4096 8 = 65
  /\ desiredByte (lastElementPtr 4096 8 10) 65 = 4192
  /\ mPool st !! 16 = Some 4192
  /\ exit_of r = Freed
  /\ free_list_head (state_of r) 8 = 4616
  /\ Mem.load64 (memory st) 4192 = 4208
  /\ Mem.load64 (memory (state_of r)) 4192 = 4144
  /\ fst (allocate_n 3 16 st) = [4192; 4208; 4224]
  /\ fst (allocate_n 3 16 (state_of r)) = [4192; 4144; 4152].
Proof. vm_compute. repeat split; reflexivity. Qed.

(** *** C3: the bit field of a fresh pool *)

(** [InitializePool] writes the links of the blocks and the head slot and
    nothing else: every byte after the head slot, and so the whole bit
    field, holds what the array held when [new] handed it out. *)
Lemma InitializePool_keeps_bit_field st size n x :
  8 <= size < 2048 -> 1 <= n < 65536 ->
  0 < heap_next st ->
  heap_next st + (size * n + 8 + n / 8 + 1) <= 2 ^ 64 ->
  lastElementPtr (heap_next st) size n + 8 <= x ->
  Mem.load8 (memory (InitializePool size n st)) x = Mem.load8 (memory st) x.
Proof.
  intros Hsize Hn Hbase Hroom Hx.
  set (base := heap_next st) in *.
  set (stride := size / 8).
  assert (Hstride : 1 <= stride < 256).
  { subst stride. split.
    - apply Z.div_le_lower_bound; lia.
    - apply Z.div_lt_upper_bound; lia. }
  assert (Hpitch : 8 * stride <= size)
    by (subst stride; apply Z.mul_div_le; lia).
  assert (Hn8 : 0 <= n / 8) by (apply Z.div_pos; lia).
  unfold lastElementPtr, sizeof_ptr in Hx. fold stride in Hx.
  assert (Hlast : wrap64 (base + 8 * (stride * n)) = base + 8 * (stride * n)).
  { unfold wrap64. apply Z.mod_small. nia. }
  rewrite Hlast in Hx.
  unfold InitializePool, new_char_array, set_mPool, set_memory.
  cbn [mPool memory mNumBlocksPerPool heap_next arrays].
  unfold wrap16, wrap8, sizeof_ptr. fold base.
  rewrite (Z.mod_small n) by lia. fold stride.
  rewrite (Z.mod_small stride) by (change (2 ^ 8) with 256; lia).
  destruct (link_blocks (Z.to_nat (n - 1)) stride base (memory st))
    as [current m1] eqn:Hloop.
  cbn [memory].
  destruct (link_blocks_spec (Z.to_nat (n - 1)) stride base (memory st)
              ltac:(lia) ltac:(lia) ltac:(nia)) as (Hend & _ & Hout).
  rewrite Hloop in Hend, Hout. cbn [fst snd] in Hend, Hout.
  replace (Z.of_nat (Z.to_nat (n - 1))) with (n - 1) in * by lia.
  assert (Hcur' : wrap64 (current + 8 * stride) = base + 8 * (stride * n)).
  { rewrite Hend. unfold wrap64. rewrite Z.mod_small by nia. lia. }
  rewrite Hcur'.
  rewrite MemFacts.load8_store64_outside by lia.
  rewrite MemFacts.load8_store64_outside by nia.
  apply Hout. right. nia.
Qed.

(** C3, at an input where it fails.  A pool of ten 8-byte blocks is built
    in an array whose bytes hold [0xCD] when [new] hands it out.  After
    [InitializePool] the bytes of the bit field are still [0xCD]: the bits
    of blocks 0, 1, 4, 5, 7, 8 and 9 read 1 although no block has been
    allocated. *)
Theorem fresh_pool_bit_field_is_not_cleared :
  let st := InitializePool 8 10 (mkState 10 ∅ (Mem.filled 205) 4096 ∅) in
  mPool st !! 8 = Some 4096
  /\ Mem.load8 (memory st) (desiredByte (lastElementPtr 4096 8 10) 0) = 205
  /\ Mem.load8 (memory st) (desiredByte (lastElementPtr 4096 8 10) 8) = 205
  /\ map (fun i => allocation_bit st 8 i =? 0) [0; 1; 2; 3; 4; 5; 6; 7; 8; 9]
     = [false; false; true; true; false; false; true; false; false; false].
Proof. vm_compute. repeat split; reflexivity. Qed.

(** *** C8: the bit of the block taken from the head *)

(** C8, as the code has it.  [Allocate] sets the bit of the block it takes
    from the head of the free list with an unconditional OR.  It does not
    look at the previous value of the bit and has no abort: whenever the
    head is not null, the call returns the head, the bit is 1 afterwards,
    and the new head is the link stored in the block. *)
Theorem allocate_sets_bit_without_check (st : State) (size base : Z) :
  mPool st !! size = Some base -> base <> 0 ->
  free_list_head st size <> 0 ->
  pool_fits base size (mNumBlocksPerPool st) ->
  in_blocks base size (mNumBlocksPerPool st) (free_list_head st size) ->
  let head := free_list_head st size in
  let index := indexBlockAllocated head base size in
  fst (Allocate size st) = head
  /\ allocation_bit (snd (Allocate size st)) size index
     = 2 ^ shiftValue index
  /\ free_list_head (snd (Allocate size st)) size
     = Mem.load64 (memory st) head.
Proof.
  intros Hpool Hbase Hhead Hfit Hin head index.
  rewrite (Allocate_present _ _ _ Hpool Hbase). fold head.
  destruct (Z.eqb_spec head 0) as [? | _]; [contradiction |].
  cbn [fst snd]. split; [reflexivity |].
  pose proof (index_in_blocks _ _ _ _ Hfit Hin) as Hidx.
  pose proof (desiredByte_fits _ _ _ _ Hfit Hidx) as Hbyte.
  pose proof (lastElementPtr_fits _ _ _ Hfit) as Hlast.
  fold head in Hidx, Hbyte. fold index in Hidx, Hbyte.
  assert (0 <= index / 8) by (apply Z.div_pos; lia).
  destruct Hin as [Hlo Hhi]. fold head in Hlo, Hhi.
  rewrite Hlast in Hhi. unfold sizeof_ptr in Hhi.
  set (st1 := set_memory _ st).
  assert (Hpool1 : mPool st1 !! size = Some base) by exact Hpool.
  rewrite (allocation_bit_present _ _ _ _ Hpool1).
  rewrite (free_list_head_present _ _ _ Hpool1).
  subst st1. unfold set_memory. cbn [memory mNumBlocksPerPool].
  unfold store_after_allocate. cbv zeta.
  rewrite <- (free_list_head_present _ _ _ Hpool). fold head. fold index.
  rewrite Hbyte, Hlast. split.
  - rewrite MemFacts.load8_store64_outside by lia.
    rewrite MemFacts.load8_store8_same.
    apply bit_set_after_or. apply shiftValue_range.
  - rewrite MemFacts.load64_store64_same.
    rewrite MemFacts.load64_store8_outside by lia.
    apply Z.mod_small. apply MemFacts.load64_range.
Qed.

Lemma allocate_sets_bit_without_check_witness :
  let head := free_list_head state_on_ones 8 in
  let index := indexBlockAllocated head 4096 8 in
  fst (Allocate 8 state_on_ones) = head
  /\ allocation_bit (snd (Allocate 8 state_on_ones)) 8 index
     = 2 ^ shiftValue index
  /\ free_list_head (snd (Allocate 8 state_on_ones)) 8
     = Mem.load64 (memory state_on_ones) head.
Proof.
  apply (allocate_sets_bit_without_check state_on_ones 8 4096).
  - vm_compute. reflexivity.
  - lia.
  - vm_compute. discriminate.
  - unfold pool_fits, sizeof_ptr, NUMBITSPERBYTE. vm_compute.
    repeat split; congruence.
  - unfold in_blocks. vm_compute. split; congruence.
Defined.

(** Right after construction on a heap of [0xFF] bytes the bit of the head
    block of the 8-byte pool already reads 1.  [Allocate] returns that
    block all the same and moves the head to the next block. *)
Lemma allocate_continues_when_bit_is_set :
  free_list_head state_on_ones 8 = 4096
  /\ allocation_bit state_on_ones 8 (indexBlockAllocated 4096 4096 8) = 128
  /\ fst (Allocate 8 state_on_ones) = 4096
  /\ free_list_head (snd (Allocate 8 state_on_ones)) 8 = 4104
  /\ allocation_bit (snd (Allocate 8 state_on_ones)) 8 0 = 128.
Proof. vm_compute. repeat split; reflexivity. Qed.

(** The same happens on a heap of zero bytes once [Free] has been given an
    address inside a block.  With three 8-byte blocks at [4096]: block 0 is
    allocated, [Free] of [4097] is accepted and its link overwrites the low
    byte of the link of block 1, which then points to block 0; two more
    calls of [Allocate] return [4097] and [4104] and leave block 0, whose
    bit is 1, at the head; the next call returns it. *)
Lemma allocate_continues_after_interior_free :
  let st := MemoryManager_new 3 (Mem.filled 0) 4096 in
  let r1 := Allocate 8 st in
  let r2 := Free 8 4097 (snd r1) in
  let r3 := Allocate 8 (state_of r2) in
  let r4 := Allocate 8 (snd r3) in
  fst r1 = 4096 /\ exit_of r2 = Freed /\ fst r3 = 4097 /\ fst r4 = 4104
  /\ free_list_head (snd r4) 8 = 4096
  /\ allocation_bit (snd r4) 8 (indexBlockAllocated 4096 4096 8) = 128
  /\ fst (Allocate 8 (snd r4)) = 4096.
Proof. vm_compute. repeat split; reflexivity. Qed.

(** *** C7: the addresses of the blocks *)

(** C7, at the inputs where it fails.  For a block size of at least the
    pointer width that is not a multiple of it, the blocks of a fresh pool
    are [8 * (size / 8)] bytes apart, not [size]: the second address that
    [Allocate] hands out lies inside the first block and is no
    [base + i * size]. *)
Theorem block_spacing_is_not_block_size (st : State) (size n : Z) :
  mNumBlocksPerPool st = n -> 2 <= n < 65536 -> 8 <= size < 2048 ->
  size mod 8 <> 0 ->
  0 < heap_next st ->
  heap_next st + (size * n + 8 + n / 8 + 1) <= 2 ^ 64 ->
  let base := heap_next st in
  let fresh := InitializePool size n st in
  mPool fresh !! size = Some base
  /\ fst (allocate_n 2 size fresh) = [base; base + 8 * (size / 8)]
  /\ base < base + 8 * (size / 8) < base + size
  /\ forall i, base + 8 * (size / 8) <> base + i * size.
Proof.
  intros Hn Hrange Hsize Hmod Hbase Hroom base fresh.
  destruct (InitializePool_linked st size n Hsize ltac:(lia) Hbase Hroom)
    as (Hpool & Hcount & Hlinked).
  fold fresh in Hpool, Hcount, Hlinked. fold base in Hpool, Hlinked.
  rewrite Hn in Hcount.
  assert (Hdiv : size = 8 * (size / 8) + size mod 8)
    by (apply Z.div_mod; lia).
  pose proof (Z.mod_pos_bound size 8 ltac:(lia)) as Hrem.
  assert (Hstride : 1 <= size / 8) by (apply Z.div_le_lower_bound; lia).
  assert (Hfit : pool_fits base size n).
  { unfold pool_fits, sizeof_ptr, NUMBITSPERBYTE. subst base.
    repeat split; try lia; nia. }
  destruct (allocate_n_linked 2 fresh size base n 0 Hfit
              ltac:(lia) (conj Hpool (conj Hcount Hlinked))
              ltac:(lia) ltac:(lia)) as [Haddr _].
  split; [exact Hpool |]. split.
  - rewrite Haddr. unfold block_addresses, block_address, sizeof_ptr.
    cbn [seq map].
    replace (size / 8 * (0 + Z.of_nat 0)) with 0 by lia.
    replace (size / 8 * (0 + Z.of_nat 1)) with (size / 8) by lia.
    replace (base + 8 * 0) with base by lia. reflexivity.
  - split; [lia |]. intros i Heq.
    assert (Hi : i * size = 8 * (size / 8)) by lia.
    destruct (Z_le_gt_dec i 0); nia.
Qed.

Lemma block_spacing_is_not_block_size_witness :
  let base := heap_next state_before_pool in
  let fresh := InitializePool 12 10 state_before_pool in
  mPool fresh !! 12 = Some base
  /\ fst (allocate_n 2 12 fresh) = [base; base + 8 * (12 / 8)]
  /\ base < base + 8 * (12 / 8) < base + 12
  /\ forall i, base + 8 * (12 / 8) <> base + i * 12.
Proof.
  apply (block_spacing_is_not_block_size state_before_pool 12 10).
  - reflexivity.
  - lia.
  - lia.
  - vm_compute. discriminate.
  - vm_compute. reflexivity.
  - vm_compute. congruence.
Defined.

(** The same through the public operations: the allocator is built with
    ten blocks per pool and a type of 12 bytes is allocated twice. *)
Lemma allocate_twelve_bytes_twice :
  let st := MemoryManager_new 10 (Mem.filled 0) 4096 in
  fst (allocate_n 2 12 st) = [4704; 4712]
  /\ mPool (snd (allocate_n 2 12 st)) !! 12 = Some 4704.
Proof. vm_compute. split; reflexivity. Qed.

(** For a block size that is a multiple of the pointer width the spacing
    is the block size. *)
Lemma block_address_multiple base size i :
  size mod 8 = 0 -> block_address base size i = base + i * size.
Proof.
  intros Hmod. unfold block_address, sizeof_ptr.
  pose proof (Z.div_mod size 8 ltac:(lia)). nia.
Qed.

(** *** C10: the pools of the constructor *)

Lemma InitializePool_registry size n st :
  mNumBlocksPerPool (InitializePool size n st) = mNumBlocksPerPool st
  /\ mPool (InitializePool size n st) = <[size := heap_next st]> (mPool st)
  /\ heap_next (InitializePool size n st)
     = align16 (heap_next st
                + wrap64 (size * wrap16 n + 8 + wrap16 n / 8 + 1))
  /\ arrays (InitializePool size n st)
     = <[heap_next st := wrap64 (size * wrap16 n + 8 + wrap16 n / 8 + 1)]>
         (arrays st).
Proof.
  unfold InitializePool, new_char_array, set_mPool, set_memory.
  cbn [mPool memory mNumBlocksPerPool heap_next arrays].
  destruct (link_blocks _ _ _ _) as [current m1].
  cbn [mPool memory mNumBlocksPerPool heap_next arrays].
  repeat split.
Qed.

(** X4.  For a block count that [uint16_t] holds, the constructor leaves
    exactly the three pools of 8, 16 and 32 bytes, each in an array for
    [n] blocks: the registry has these three keys and no other, and the
    runtime has handed out these three arrays and no other. *)
Theorem MemoryManager_new_pools n m heap :
  0 <= n < 65536 ->
  let st := MemoryManager_new n m heap in
  let heap16 := align16 (heap + pool_array_length 8 n) in
  let heap32 := align16 (heap16 + pool_array_length 16 n) in
  mNumBlocksPerPool st = n
  /\ mPool st = <[32 := heap32]> (<[16 := heap16]> (<[8 := heap]> ∅))
  /\ dom (mPool st) = {[8; 16; 32]}
  /\ arrays st
     = <[heap32 := pool_array_length 32 n]>
         (<[heap16 := pool_array_length 16 n]>
            (<[heap := pool_array_length 8 n]> ∅)).
Proof.
  intros Hn st heap16 heap32. subst st. unfold MemoryManager_new.
  cbn [fold_left].
  change (2 ^ 3) with 8. change (2 ^ 4) with 16. change (2 ^ 5) with 32.
  assert (Hlen : forall size, 0 <= size <= 32 ->
            wrap64 (size * wrap16 n + 8 + wrap16 n / 8 + 1)
            = pool_array_length size n).
  { intros size Hsize. unfold wrap16, wrap64, pool_array_length.
    rewrite (Z.mod_small n) by lia.
    assert (0 <= n / 8 <= n) by (split; [apply Z.div_pos | apply Z.div_le_upper_bound]; lia).
    apply Z.mod_small. change (2 ^ 64) with 18446744073709551616. nia. }
  set (st0 := mkState (wrap32 n) ∅ m heap ∅).
  destruct (InitializePool_registry 8 n st0) as (Hc1 & Hp1 & Hh1 & Ha1).
  set (st1 := InitializePool 8 n st0) in *.
  destruct (InitializePool_registry 16 n st1) as (Hc2 & Hp2 & Hh2 & Ha2).
  set (st2 := InitializePool 16 n st1) in *.
  destruct (InitializePool_registry 32 n st2) as (Hc3 & Hp3 & Hh3 & Ha3).
  rewrite Hlen in * by lia.
  cbn [heap_next st0 mPool arrays mNumBlocksPerPool] in *.
  rewrite Hh1 in *. rewrite Hh2 in *.
  rewrite Hc3, Hc2, Hc1, Hp3, Hp2, Hp1, Ha3, Ha2, Ha1.
  split; [unfold wrap32; apply Z.mod_small; lia |].
  split; [reflexivity |]. split; [| reflexivity].
  rewrite !dom_insert_L, dom_empty_L. set_solver.
Qed.

(** Without an argument the constructor builds the three pools with ten
    blocks each. *)
Lemma MemoryManager_new_pools_witness :
  let st := MemoryManager_default (Mem.filled 0) 4096 in
  let heap16 := align16 (4096 + pool_array_length 8 10) in
  let heap32 := align16 (heap16 + pool_array_length 16 10) in
  mNumBlocksPerPool st = 10
  /\ mPool st = <[32 := heap32]> (<[16 := heap16]> (<[8 := 4096]> ∅))
  /\ dom (mPool st) = {[8; 16; 32]}
  /\ arrays st
     = <[heap32 := pool_array_length 32 10]>
         (<[heap16 := pool_array_length 16 10]>
            (<[4096 := pool_array_length 8 10]> ∅)).
Proof.
  apply (MemoryManager_new_pools 10 (Mem.filled 0) 4096). lia.
Defined.

(** C10, at an input where it fails.  The constructor takes an [unsigned
    int] and keeps it as the block count, but [InitializePool] takes a
    [uint16_t]: for 65536 blocks per pool each of the three pools is built
    with no block, in an array of nine bytes, while [Allocate] and [Free]
    look for the head slot 65536 blocks after the start of the array.  On
    a heap of zero bytes the first [Allocate] of each of the three sizes
    returns null. *)
Theorem constructor_truncates_block_count :
  let st := MemoryManager_new 65536 (Mem.filled 0) 4096 in
  mNumBlocksPerPool st = 65536
  /\ dom (mPool st) = {[8; 16; 32]}
  /\ (mPool st !! 8 = Some 4096 /\ arrays st !! 4096 = Some 9)
  /\ (mPool st !! 16 = Some 4112 /\ arrays st !! 4112 = Some 9)
  /\ (mPool st !! 32 = Some 4128 /\ arrays st !! 4128 = Some 9)
  /\ lastElementPtr 4096 8 (mNumBlocksPerPool st) = 4096 + 8 * 65536
  /\ map (fun size => fst (Allocate size st)) [8; 16; 32] = [0; 0; 0].
Proof.
  cbv zeta. split; [vm_compute; reflexivity |].
  split.
  - apply set_eq. intros x. rewrite elem_of_dom.
    unfold MemoryManager_new. cbn [fold_left].
    destruct (InitializePool_registry (2 ^ 5) 65536
                (InitializePool (2 ^ 4) 65536
                   (InitializePool (2 ^ 3) 65536
                      (mkState (wrap32 65536) ∅ (Mem.filled 0) 4096 ∅))))
      as (_ & -> & _).
    destruct (InitializePool_registry (2 ^ 4) 65536
                (InitializePool (2 ^ 3) 65536
                   (mkState (wrap32 65536) ∅ (Mem.filled 0) 4096 ∅)))
      as (_ & -> & _).
    destruct (InitializePool_registry (2 ^ 3) 65536
                (mkState (wrap32 65536) ∅ (Mem.filled 0) 4096 ∅))
      as (_ & -> & _).
    cbn [mPool]. rewrite <- elem_of_dom, !dom_insert_L, dom_empty_L.
    change (2 ^ 3) with 8. change (2 ^ 4) with 16. change (2 ^ 5) with 32.
    set_solver.
  - vm_compute. repeat split; reflexivity.
Qed.

(** ** The pool under a client that keeps to the contract *)

(** What holds for block sizes that are multiples of the pointer width,
    when [Free] is given only blocks that are handed out. *)

Lemma land_after_or_other b s t :
  0 <= s <= 7 -> 0 <= t <= 7 -> s <> t -> 0 <= b < 256 ->
  Z.land (Z.lor b (Z.shiftl 1 s) mod 256) (Z.shiftl 1 t)
  = Z.land b (Z.shiftl 1 t).
Proof.
  intros Hs Ht Hne Hb. rewrite !land_single_bit by lia.
  change 256 with (2 ^ 8). rewrite Z.mod_pow2_bits_low by lia.
  rewrite Z.lor_spec, Z.shiftl_1_l, Z.pow2_bits_false by lia.
  rewrite orb_false_r. reflexivity.
Qed.

Lemma land_after_xor_other b s t :
  0 <= s <= 7 -> 0 <= t <= 7 -> s <> t -> 0 <= b < 256 ->
  Z.land (Z.lxor b (Z.shiftl 1 s) mod 256) (Z.shiftl 1 t)
  = Z.land b (Z.shiftl 1 t).
Proof.
  intros Hs Ht Hne Hb. rewrite !land_single_bit by lia.
  change 256 with (2 ^ 8). rewrite Z.mod_pow2_bits_low by lia.
  rewrite Z.lxor_spec, Z.shiftl_1_l, Z.pow2_bits_false by lia.
  rewrite xorb_false_r. reflexivity.
Qed.

Lemma chained_ext m m' base size p fl :
  (forall j, j ∈ fl ->
     Mem.load64 m' (block_address base size j)
     = Mem.load64 m (block_address base size j)) ->
  chained m base size p fl -> chained m' base size p fl.
Proof.
  revert p. induction fl as [| i rest IH]; intros p Hsame Hchain.
  - exact Hchain.
  - destruct Hchain as [-> Hrest]. split; [reflexivity |].
    rewrite Hsame by (left). apply IH; [| exact Hrest].
    intros j Hj. apply Hsame. right. exact Hj.
Qed.

Section PoolInvariant.

Variables size base n : Z.
Hypothesis Hmult : size mod 8 = 0.
Hypothesis Hsize : 8 <= size.
Hypothesis Hcount : n < 2 ^ 32.
Hypothesis Hfit : pool_fits base size n.

Lemma pitch_is_size : 8 * (size / 8) = size.
Proof. pose proof (Z.div_mod size 8 ltac:(lia)). lia. Qed.

Lemma block_is : forall i, block_address base size i = base + i * size.
Proof. intros i. apply block_address_multiple. exact Hmult. Qed.

Lemma last_is : lastElementPtr base size n = base + n * size.
Proof.
  rewrite (lastElementPtr_fits _ _ _ Hfit).
  pose proof pitch_is_size. nia.
Qed.

Lemma room : 0 < base /\ 0 <= n /\ base + n * size + 8 + n / 8 + 1 <= 2 ^ 64.
Proof.
  destruct Hfit as (Hb & _ & Hn & Hroom).
  unfold sizeof_ptr, NUMBITSPERBYTE in Hroom.
  pose proof pitch_is_size. repeat split; try lia; nia.
Qed.

Lemma block_bounds i :
  0 <= i < n ->
  base <= block_address base size i /\
  block_address base size i + size <= base + n * size.
Proof. intros Hi. rewrite block_is. split; nia. Qed.

Lemma blocks_apart i j :
  i <> j ->
  block_address base size i + size <= block_address base size j \/
  block_address base size j + size <= block_address base size i.
Proof. intros Hne. rewrite !block_is. nia. Qed.

Lemma index_of_block i :
  0 <= i < n -> indexBlockAllocated (block_address base size i) base size = i.
Proof.
  intros Hi. pose proof room as (Hb & Hn & Hroom).
  pose proof (block_bounds i Hi) as [Hlo Hhi]. rewrite block_is in *.
  assert (0 <= n / 8) by (apply Z.div_pos; lia).
  unfold indexBlockAllocated, wrap32, wrap64.
  replace (base + i * size - base) with (i * size) by lia.
  rewrite (Z.mod_small (i * size)) by nia.
  rewrite Z.div_mul by lia. apply Z.mod_small. lia.
Qed.

Lemma byte_of_index i :
  0 <= i < n ->
  desiredByte (lastElementPtr base size n) i = base + n * size + 8 + i / 8.
Proof.
  intros Hi. rewrite (desiredByte_fits _ _ _ _ Hfit Hi).
  rewrite <- (lastElementPtr_fits _ _ _ Hfit), last_is. reflexivity.
Qed.

Lemma allocation_bit_is st i :
  mPool st !! size = Some base -> mNumBlocksPerPool st = n -> 0 <= i < n ->
  allocation_bit st size i = bit_in_store (memory st) (base + n * size) i.
Proof.
  intros Hpool Hn Hi. rewrite (allocation_bit_present _ _ _ _ Hpool), Hn.
  rewrite (byte_of_index i Hi). reflexivity.
Qed.

Lemma same_byte_other_shift i j :
  i <> j -> i / 8 = j / 8 -> shiftValue i <> shiftValue j.
Proof.
  intros Hne Hdiv. unfold shiftValue, NUMBITSPERBYTE.
  pose proof (Z.div_mod i 8 ltac:(lia)). pose proof (Z.div_mod j 8 ltac:(lia)).
  lia.
Qed.

(** The store after a successful [Allocate] that takes block [k]. *)
Lemma store_after_allocate_facts m k :
  0 <= k < n ->
  Mem.load64 m (lastElementPtr base size n) = block_address base size k ->
  Mem.load64 (store_after_allocate m base size n) (base + n * size)
  = Mem.load64 m (block_address base size k)
  /\ (forall x, x < base + n * size ->
        Mem.load8 (store_after_allocate m base size n) x = Mem.load8 m x)
  /\ bit_in_store (store_after_allocate m base size n) (base + n * size) k
     <> 0
  /\ (forall j, 0 <= j < n -> j <> k ->
        bit_in_store (store_after_allocate m base size n) (base + n * size) j
        = bit_in_store m (base + n * size) j).
Proof.
  intros Hk Hhead. pose proof room as (Hb & Hn & Hroom).
  pose proof (block_bounds k Hk) as [Hlo Hhi].
  assert (0 <= k / 8 <= n / 8)
    by (split; [apply Z.div_pos | apply Z.div_le_mono]; lia).
  unfold store_after_allocate. cbv zeta.
  rewrite Hhead, (index_of_block k Hk), (byte_of_index k Hk), last_is.
  set (byte := base + n * size + 8 + k / 8).
  set (v := Z.lor (Mem.load8 m byte) (Z.shiftl 1 (shiftValue k))).
  assert (Hlink : Mem.load64 (Mem.store8 m byte v) (block_address base size k)
                  = Mem.load64 m (block_address base size k)).
  { apply MemFacts.load64_store8_outside. subst byte. lia. }
  rewrite Hlink.
  split.
  { rewrite MemFacts.load64_store64_same. apply Z.mod_small.
    apply MemFacts.load64_range. }
  split.
  { intros x Hx. rewrite MemFacts.load8_store64_outside by lia.
    apply MemFacts.load8_store8_other. subst byte. lia. }
  split.
  { unfold bit_in_store. fold byte.
    rewrite MemFacts.load8_store64_outside by (subst byte; lia).
    rewrite MemFacts.load8_store8_same. subst v.
    rewrite bit_set_after_or by apply shiftValue_range.
    pose proof (shiftValue_range k).
    assert (0 < 2 ^ shiftValue k) by (apply Z.pow_pos_nonneg; lia). lia. }
  intros j Hj Hne. unfold bit_in_store.
  assert (0 <= j / 8) by (apply Z.div_pos; lia).
  rewrite MemFacts.load8_store64_outside by lia.
  destruct (Z.eq_dec (j / 8) (k / 8)) as [Heq | Hdiff].
  - rewrite Heq. fold byte. rewrite MemFacts.load8_store8_same. subst v.
    apply land_after_or_other;
      [apply shiftValue_range | apply shiftValue_range | |
       apply MemFacts.load8_range].
    intros Hs. apply (same_byte_other_shift j k Hne Heq). symmetry. exact Hs.
  - rewrite MemFacts.load8_store8_other by (subst byte; lia). reflexivity.
Qed.

(** The store after a successful [Free] of block [i]. *)
Lemma store_after_free_facts m i :
  0 <= i < n ->
  bit_in_store m (base + n * size) i <> 0 ->
  let m' := store_after_free m base size n (block_address base size i) in
  Mem.load64 m' (base + n * size) = block_address base size i
  /\ Mem.load64 m' (block_address base size i)
     = Mem.load64 m (base + n * size)
  /\ (forall x, x < base + n * size ->
        x < block_address base size i \/ block_address base size i + 8 <= x ->
        Mem.load8 m' x = Mem.load8 m x)
  /\ bit_in_store m' (base + n * size) i = 0
  /\ (forall j, 0 <= j < n -> j <> i ->
        bit_in_store m' (base + n * size) j
        = bit_in_store m (base + n * size) j).
Proof.
  intros Hi Hbit m'. pose proof room as (Hb & Hn & Hroom).
  pose proof (block_bounds i Hi) as [Hlo Hhi].
  assert (0 <= i / 8 <= n / 8)
    by (split; [apply Z.div_pos | apply Z.div_le_mono]; lia).
  subst m'. unfold store_after_free. cbv zeta.
  rewrite (index_of_block i Hi), (byte_of_index i Hi), last_is.
  set (block := block_address base size i) in *.
  set (byte := base + n * size + 8 + i / 8).
  set (v := Z.lxor (Mem.load8 m byte) (Z.shiftl 1 (shiftValue i))).
  assert (Hhead : Mem.load64 (Mem.store8 m byte v) (base + n * size)
                  = Mem.load64 m (base + n * size)).
  { apply MemFacts.load64_store8_outside. subst byte. lia. }
  rewrite Hhead.
  split.
  { apply MemFacts.load64_store64_value. lia. }
  split.
  { rewrite MemFacts.load64_store64_apart by lia.
    rewrite MemFacts.load64_store64_same. apply Z.mod_small.
    apply MemFacts.load64_range. }
  split.
  { intros x Hx Hout. rewrite MemFacts.load8_store64_outside by lia.
    rewrite MemFacts.load8_store64_outside by lia.
    apply MemFacts.load8_store8_other. subst byte. lia. }
  split.
  { unfold bit_in_store. fold byte.
    rewrite MemFacts.load8_store64_outside by (subst byte; lia).
    rewrite MemFacts.load8_store64_outside by (subst byte; lia).
    rewrite MemFacts.load8_store8_same. subst v.
    apply bit_clear_after_xor; [apply shiftValue_range | exact Hbit]. }
  intros j Hj Hne. unfold bit_in_store.
  assert (0 <= j / 8) by (apply Z.div_pos; lia).
  rewrite MemFacts.load8_store64_outside by lia.
  rewrite MemFacts.load8_store64_outside by lia.
  destruct (Z.eq_dec (j / 8) (i / 8)) as [Heq | Hdiff].
  - rewrite Heq. fold byte. rewrite MemFacts.load8_store8_same. subst v.
    apply land_after_xor_other;
      [apply shiftValue_range | apply shiftValue_range | |
       apply MemFacts.load8_range].
    intros Hs. apply (same_byte_other_shift j i Hne Heq). symmetry. exact Hs.
  - rewrite MemFacts.load8_store8_other by (subst byte; lia). reflexivity.
Qed.

Lemma pool_inv_base_nonnull : base <> 0.
Proof. pose proof room. lia. Qed.

(** [Allocate] takes the first block of the free list. *)
Lemma pool_inv_Allocate st k fl A :
  pool_inv size base n st (k :: fl) A ->
  fst (Allocate size st) = block_address base size k
  /\ pool_inv size base n (snd (Allocate size st)) fl ({[k]} ∪ A)
  /\ (forall j, 0 <= j < n -> j <> k ->
        allocation_bit (snd (Allocate size st)) size j
        = allocation_bit st size j).
Proof.
  intros (Hpool & Hn & Hchain & Hnd & Hfree & Halloc).
  pose proof room as (Hb & Hn0 & Hroom).
  destruct Hchain as [Hhead Hrest].
  apply NoDup_cons in Hnd as [Hk_fl Hnd].
  destruct (Hfree k ltac:(left)) as [Hk Hk_A].
  pose proof (block_bounds k Hk) as [Hlo Hhi].
  pose proof Hhead as Hhead'.
  rewrite (free_list_head_present _ _ _ Hpool), Hn in Hhead'.
  destruct (store_after_allocate_facts (memory st) k Hk Hhead')
    as (Hnew & Hbelow & Hbitk & Hbits).
  rewrite (Allocate_present _ _ _ Hpool pool_inv_base_nonnull), Hhead, Hn.
  destruct (Z.eqb_spec (block_address base size k) 0) as [? | _]; [lia |].
  cbn [fst snd]. split; [reflexivity |].
  set (st1 := set_memory _ st).
  assert (Hpool1 : mPool st1 !! size = Some base) by exact Hpool.
  assert (Hn1 : mNumBlocksPerPool st1 = n) by exact Hn.
  assert (Hother : forall j, 0 <= j < n -> j <> k ->
            allocation_bit st1 size j = allocation_bit st size j).
  { intros j Hj Hne.
    rewrite (allocation_bit_is st1 j Hpool1 Hn1 Hj).
    rewrite (allocation_bit_is st j Hpool Hn Hj).
    subst st1. unfold set_memory. cbn [memory]. apply Hbits; assumption. }
  split; [| exact Hother].
  split; [exact Hpool1 |]. split; [exact Hn1 |]. split.
  { rewrite (free_list_head_present _ _ _ Hpool1), Hn1, last_is.
    subst st1. unfold set_memory. cbn [memory]. rewrite Hnew.
    rewrite Hhead in Hrest.
    apply (chained_ext (memory st)); [| exact Hrest].
    intros j Hj. destruct (Hfree j ltac:(right; exact Hj)) as [Hjn _].
    pose proof (block_bounds j Hjn). apply load64_ext. intros x Hx.
    apply Hbelow. lia. }
  split; [exact Hnd |]. split.
  { intros i Hi. destruct (Hfree i ltac:(right; exact Hi)) as [Hin HiA].
    split; [exact Hin |]. intros Hu.
    apply elem_of_union in Hu as [Hik | ?]; [| contradiction].
    apply elem_of_singleton in Hik. subst i. contradiction. }
  intros i Hi. apply elem_of_union in Hi as [Hik | HiA].
  - apply elem_of_singleton in Hik. subst i. split; [exact Hk |].
    rewrite (allocation_bit_is st1 k Hpool1 Hn1 Hk). exact Hbitk.
  - destruct (Halloc i HiA) as [Hin Hbit]. split; [exact Hin |].
    assert (i <> k) by (intros ->; contradiction).
    rewrite Hother by assumption. exact Hbit.
Qed.

(** With an empty free list [Allocate] fails and changes nothing. *)
Lemma pool_inv_Allocate_exhausted st A :
  pool_inv size base n st [] A -> Allocate size st = (0, st).
Proof.
  intros (Hpool & Hn & Hchain & _). cbn [chained] in Hchain.
  rewrite (Allocate_present _ _ _ Hpool pool_inv_base_nonnull), Hchain.
  reflexivity.
Qed.

(** [Free] of a block that is handed out puts it in front of the free
    list. *)
Lemma pool_inv_Free st fl A i :
  pool_inv size base n st fl A -> i ∈ A ->
  exit_of (Free size (block_address base size i) st) = Freed
  /\ pointer_of (Free size (block_address base size i) st) = 0
  /\ pool_inv size base n
       (state_of (Free size (block_address base size i) st))
       (i :: fl) (A ∖ {[i]})
  /\ allocation_bit (state_of (Free size (block_address base size i) st))
                    size i = 0
  /\ (forall j, 0 <= j < n -> j <> i ->
        allocation_bit (state_of (Free size (block_address base size i) st))
                       size j
        = allocation_bit st size j).
Proof.
  intros (Hpool & Hn & Hchain & Hnd & Hfree & Halloc) HiA.
  pose proof room as (Hb & Hn0 & Hroom).
  destruct (Halloc i HiA) as [Hi Hbit].
  pose proof (block_bounds i Hi) as [Hlo Hhi].
  assert (Hnz : block_address base size i <> 0) by lia.
  assert (Hi_fl : i ∉ fl).
  { intros Hin. destruct (Hfree i Hin) as [_ ?]. contradiction. }
  rewrite (Free_present _ _ _ _ Hpool Hnz), (index_of_block i Hi).
  destruct (Z.eqb_spec (allocation_bit st size i) 0) as [? | _];
    [contradiction |].
  unfold exit_of, pointer_of, state_of. cbn [fst snd].
  split; [reflexivity |]. split; [reflexivity |].
  rewrite (allocation_bit_is st i Hpool Hn Hi) in Hbit.
  destruct (store_after_free_facts (memory st) i Hi Hbit)
    as (Hnew & Hlink & Hbelow & Hbiti & Hbits).
  rewrite Hn.
  set (st1 := set_memory _ st).
  assert (Hpool1 : mPool st1 !! size = Some base) by exact Hpool.
  assert (Hn1 : mNumBlocksPerPool st1 = n) by exact Hn.
  assert (Hother : forall j, 0 <= j < n -> j <> i ->
            allocation_bit st1 size j = allocation_bit st size j).
  { intros j Hj Hne.
    rewrite (allocation_bit_is st1 j Hpool1 Hn1 Hj).
    rewrite (allocation_bit_is st j Hpool Hn Hj).
    subst st1. unfold set_memory. cbn [memory]. apply Hbits; assumption. }
  split; [| split; [| exact Hother]];
    [| rewrite (allocation_bit_is st1 i Hpool1 Hn1 Hi); exact Hbiti].
  split; [exact Hpool1 |]. split; [exact Hn1 |]. split.
  { rewrite (free_list_head_present _ _ _ Hpool1), Hn1, last_is.
    subst st1. unfold set_memory. cbn [memory]. rewrite Hnew.
    split; [reflexivity |]. rewrite Hlink.
    rewrite (free_list_head_present _ _ _ Hpool), Hn, last_is in Hchain.
    apply (chained_ext (memory st)); [| exact Hchain].
    intros j Hj. destruct (Hfree j Hj) as [Hjn _].
    assert (j <> i) by (intros ->; contradiction).
    pose proof (block_bounds j Hjn). pose proof (blocks_apart j i ltac:(lia)).
    apply load64_ext. intros x Hx. apply Hbelow; lia. }
  split; [apply NoDup_cons; split; assumption |]. split.
  { intros j Hj. apply elem_of_cons in Hj as [-> | Hj].
    - split; [exact Hi |]. intros Hd.
      apply elem_of_difference in Hd as [_ Hd]. apply Hd.
      apply elem_of_singleton. reflexivity.
    - destruct (Hfree j Hj) as [Hjn HjA]. split; [exact Hjn |]. intros Hd.
      apply elem_of_difference in Hd as [Hd _]. contradiction. }
  intros j Hj. apply elem_of_difference in Hj as [HjA Hji].
  assert (j <> i) by (intros ->; apply Hji; apply elem_of_singleton; reflexivity).
  destruct (Halloc j HjA) as [Hjn Hbitj]. split; [exact Hjn |].
  rewrite Hother by assumption. exact Hbitj.
Qed.


End PoolInvariant.


Lemma linked_from_chained m base size n d :
  forall k,
    n - k = Z.of_nat d -> 0 <= k ->
    (forall i, k <= i < n ->
       Mem.load64 m (block_address base size i)
       = (if i + 1 <? n then block_address base size (i + 1) else 0)) ->
    chained m base size (if k <? n then block_address base size k else 0)
            (seqZ k (n - k)).
Proof.
  induction d as [| d IH]; intros k Hd Hk Hlinks.
  - replace (n - k) with 0 by lia. cbn [seqZ]. 
    destruct (Z.ltb_spec k n); [lia | reflexivity].
  - rewrite seqZ_cons by lia.
    destruct (Z.ltb_spec k n); [| lia].
    split; [reflexivity |]. rewrite (Hlinks k) by lia.
    replace (Z.pred (n - k)) with (n - Z.succ k) by lia.
    replace (k + 1) with (Z.succ k) by lia.
    apply IH; [lia | lia |]. intros i Hi. apply Hlinks. lia.
Qed.











(** ** Pools beside each other *)

Lemma align16_bounds z : z <= align16 z < z + 16.
Proof.
  unfold align16. pose proof (Z.div_mod (z + 15) 16 ltac:(lia)).
  pose proof (Z.mod_pos_bound (z + 15) 16 ltac:(lia)). lia.
Qed.

(** [InitializePool] writes only into the array it obtains: every byte
    below the start of the array is as before. *)
Lemma InitializePool_below st size n x :
  8 <= size < 2048 -> 0 <= n < 65536 ->
  0 < heap_next st ->
  heap_next st + size * (n + 1) + 8 <= 2 ^ 64 ->
  x < heap_next st ->
  Mem.load8 (memory (InitializePool size n st)) x = Mem.load8 (memory st) x.
Proof.
  intros Hsize Hn Hbase Hroom Hx.
  set (base := heap_next st) in *.
  set (stride := size / 8).
  assert (Hstride : 1 <= stride < 256).
  { subst stride. split.
    - apply Z.div_le_lower_bound; lia.
    - apply Z.div_lt_upper_bound; lia. }
  assert (Hpitch : 8 * stride <= size)
    by (subst stride; apply Z.mul_div_le; lia).
  unfold InitializePool, new_char_array, set_mPool, set_memory.
  cbn [mPool memory mNumBlocksPerPool heap_next arrays].
  unfold wrap16, wrap8, sizeof_ptr. fold base.
  rewrite (Z.mod_small n) by lia. fold stride.
  rewrite (Z.mod_small stride) by (change (2 ^ 8) with 256; lia).
  destruct (link_blocks (Z.to_nat (n - 1)) stride base (memory st))
    as [current m1] eqn:Hloop.
  cbn [memory].
  assert (Hk : 0 <= Z.of_nat (Z.to_nat (n - 1)) <= n) by lia.
  destruct (link_blocks_spec (Z.to_nat (n - 1)) stride base (memory st)
              ltac:(lia) ltac:(lia) ltac:(nia)) as (Hend & _ & Hout).
  rewrite Hloop in Hend, Hout. cbn [fst snd] in Hend, Hout.
  assert (Hcur : base <= current /\ current + 8 * stride < 2 ^ 64) by nia.
  assert (Hcur' : wrap64 (current + 8 * stride) = current + 8 * stride).
  { unfold wrap64. apply Z.mod_small. lia. }
  rewrite Hcur'.
  rewrite MemFacts.load8_store64_outside by lia.
  rewrite MemFacts.load8_store64_outside by lia.
  apply Hout. left. exact Hx.
Qed.

(** A pool whose blocks and head slot lie below the next array keeps its
    free list when a pool for another size is built. *)
Lemma pool_linked_frame st size' n' size base n k :
  pool_linked st size base n k ->
  size' <> size -> 8 <= size -> 0 <= n -> 0 <= k ->
  block_address base size n + 8 <= heap_next st ->
  8 <= size' < 2048 -> 0 <= n' < 65536 ->
  0 < base ->
  heap_next st + size' * (n' + 1) + 8 <= 2 ^ 64 ->
  pool_linked (InitializePool size' n' st) size base n k.
Proof.
  intros (Hpool & Hn & Hhead & Hlinks) Hne Hsize Hn0 Hk Hbelow Hsize' Hn' Hb
         Hroom.
  destruct (InitializePool_registry size' n' st) as (Hc & Hp & _ & _).
  assert (Hstride : 1 <= size / 8) by (apply Z.div_le_lower_bound; lia).
  unfold block_address, sizeof_ptr in Hbelow.
  assert (Hlast : lastElementPtr base size n = base + 8 * (size / 8 * n)).
  { unfold lastElementPtr, wrap64, sizeof_ptr. apply Z.mod_small. nia. }
  assert (Hsame : forall a, a + 8 <= heap_next st ->
            Mem.load64 (memory (InitializePool size' n' st)) a
            = Mem.load64 (memory st) a).
  { intros a Ha. apply load64_ext. intros x Hx.
    apply InitializePool_below; try assumption; lia. }
  split; [rewrite Hp; rewrite lookup_insert_ne by exact Hne; exact Hpool |].
  split; [rewrite Hc; exact Hn |].
  split.
  - rewrite Hsame by (rewrite Hlast; lia). exact Hhead.
  - intros i Hi. rewrite Hsame; [apply Hlinks; exact Hi |].
    unfold block_address, sizeof_ptr. nia.
Qed.

(** For a block count that [uint16_t] holds, the constructor leaves each of
    the three pools with all its [n] blocks chained, block 0 first. *)
Theorem MemoryManager_new_linked n m heap :
  0 <= n < 65536 -> 0 < heap -> heap + 64 * n + 256 <= 2 ^ 64 ->
  let st := MemoryManager_new n m heap in
  let heap16 := align16 (heap + pool_array_length 8 n) in
  let heap32 := align16 (heap16 + pool_array_length 16 n) in
  pool_linked st 8 heap n 0
  /\ pool_linked st 16 heap16 n 0
  /\ pool_linked st 32 heap32 n 0.
Proof.
  intros Hn Hheap Hroom st heap16 heap32.
  assert (Hn8 : 0 <= n / 8 <= n)
    by (split; [apply Z.div_pos | apply Z.div_le_upper_bound]; lia).
  pose proof (align16_bounds (heap + pool_array_length 8 n)) as H16.
  pose proof (align16_bounds (heap16 + pool_array_length 16 n)) as H32.
  fold heap16 in H16. fold heap32 in H32.
  unfold pool_array_length in H16, H32.
  assert (Hlen : forall size, 0 <= size <= 32 ->
            wrap64 (size * wrap16 n + 8 + wrap16 n / 8 + 1)
            = pool_array_length size n).
  { intros size Hsize. unfold wrap16, wrap64, pool_array_length.
    rewrite (Z.mod_small n) by lia.
    apply Z.mod_small. change (2 ^ 64) with 18446744073709551616. nia. }
  subst st. unfold MemoryManager_new. cbn [fold_left].
  change (2 ^ 3) with 8. change (2 ^ 4) with 16. change (2 ^ 5) with 32.
  set (st0 := mkState (wrap32 n) ∅ m heap ∅).
  assert (Hc0 : mNumBlocksPerPool st0 = n)
    by (unfold st0, wrap32; cbn [mNumBlocksPerPool]; apply Z.mod_small; lia).
  destruct (InitializePool_registry 8 n st0) as (Hc1 & _ & Hh1 & _).
  destruct (InitializePool_linked st0 8 n ltac:(lia) Hn Hheap
              ltac:(cbn [heap_next st0]; nia)) as (Hp1 & _ & Hl1).
  set (st1 := InitializePool 8 n st0) in *.
  cbn [heap_next st0] in Hh1, Hp1, Hl1. rewrite Hlen in Hh1 by lia.
  fold heap16 in Hh1. rewrite Hc0 in Hc1.
  destruct (InitializePool_registry 16 n st1) as (Hc2 & _ & Hh2 & _).
  destruct (InitializePool_linked st1 16 n ltac:(lia) Hn
              ltac:(rewrite Hh1; lia) ltac:(rewrite Hh1; nia))
    as (Hp2 & _ & Hl2).
  set (st2 := InitializePool 16 n st1) in *.
  rewrite Hh1, Hlen in Hh2 by lia. fold heap32 in Hh2.
  rewrite Hh1 in Hp2, Hl2. rewrite Hc1 in Hc2.
  destruct (InitializePool_registry 32 n st2) as (Hc3 & _ & _ & _).
  destruct (InitializePool_linked st2 32 n ltac:(lia) Hn
              ltac:(rewrite Hh2; lia) ltac:(rewrite Hh2; nia))
    as (Hp3 & _ & Hl3).
  rewrite Hh2 in Hp3, Hl3. rewrite Hc2 in Hc3.
  assert (Hpool1 : pool_linked st1 8 heap n 0)
    by (split; [exact Hp1 | split; [exact Hc1 | exact Hl1]]).
  assert (Hpool2 : pool_linked st2 16 heap16 n 0)
    by (split; [exact Hp2 | split; [exact Hc2 | exact Hl2]]).
  assert (Hpool1' : pool_linked st2 8 heap n 0).
  { apply pool_linked_frame; try assumption; try lia;
      rewrite ?Hh1; unfold block_address, sizeof_ptr;
      change (8 / 8) with 1; nia. }
  split; [| split].
  - apply pool_linked_frame; try assumption; try lia;
      rewrite ?Hh2; unfold block_address, sizeof_ptr;
      change (8 / 8) with 1; nia.
  - apply pool_linked_frame; try assumption; try lia;
      rewrite ?Hh2; unfold block_address, sizeof_ptr;
      change (16 / 8) with 2; nia.
  - split; [exact Hp3 | split; [exact Hc3 | exact Hl3]].
Qed.

(** X2.  Exhaustion for the three pools of the constructor.  When the
    allocator is constructed with a block count [n < 65536] and the arrays
    lie in the address space, then for each of the sizes 8, 16 and 32:
    [n] consecutive calls of [Allocate] return [n] non-null, pairwise
    distinct addresses, and the next call returns null and leaves the
    state as it is.  The pools lie beside each other, and building one
    does not touch the links of the one before. *)
Theorem default_pools_exhaustion n m heap size :
  0 <= n < 65536 -> 0 < heap -> heap + 64 * n + 256 <= 2 ^ 64 ->
  size = 8 \/ size = 16 \/ size = 32 ->
  exhausts_after size n (MemoryManager_new n m heap).
Proof.
  intros Hn Hheap Hroom Hsize.
  destruct (MemoryManager_new_linked n m heap Hn Hheap Hroom)
    as (H8 & H16 & H32).
  assert (Hn8 : 0 <= n / 8 <= n)
    by (split; [apply Z.div_pos | apply Z.div_le_upper_bound]; lia).
  cbv zeta in H16, H32.
  set (h16 := align16 (heap + pool_array_length 8 n)) in *.
  set (h32 := align16 (h16 + pool_array_length 16 n)) in *.
  pose proof (align16_bounds (heap + pool_array_length 8 n)) as Ha.
  pose proof (align16_bounds (h16 + pool_array_length 16 n)) as Hb.
  fold h16 in Ha. fold h32 in Hb.
  unfold pool_array_length in Ha, Hb.
  destruct Hsize as [-> | [-> | ->]].
  - apply (linked_pool_exhausts _ 8 heap n); [| lia | exact H8].
    apply array_fits_pool; lia.
  - apply (linked_pool_exhausts _ 16 h16 n); [| lia | exact H16].
    apply array_fits_pool; lia.
  - apply (linked_pool_exhausts _ 32 h32 n); [| lia | exact H32].
    apply array_fits_pool; lia.
Qed.

(** The pool of 16 bytes of the default allocator in a zeroed heap. *)
Lemma default_pools_exhaustion_witness :
  exhausts_after 16 10 (MemoryManager_new 10 (Mem.filled 0) 4096).
Proof.
  apply (default_pools_exhaustion 10 (Mem.filled 0) 4096 16).
  - lia.
  - lia.
  - vm_compute. congruence.
  - right. left. reflexivity.
Defined.

(** A pool that does not exist yet, or whose registry entry is null, is
    built by the first [Allocate]. *)
Lemma Allocate_creates_pool st size :
  mPool st !! size = None \/ mPool st !! size = Some 0 ->
  heap_next st <> 0 ->
  exists st1,
    mNumBlocksPerPool st1 = mNumBlocksPerPool st
    /\ heap_next st1 = heap_next st
    /\ Allocate size st
       = Allocate size (InitializePool size (mNumBlocksPerPool st1) st1).
Proof.
  intros Hentry Hheap.
  assert (Hnew : forall s,
            mPool_index size (InitializePool size (mNumBlocksPerPool s) s)
            = (heap_next s, InitializePool size (mNumBlocksPerPool s) s)).
  { intros s. apply mPool_index_present.
    destruct (InitializePool_registry size (mNumBlocksPerPool s) s)
      as (_ & -> & _). apply lookup_insert_eq. }
  assert (Hagain : forall s, heap_next s <> 0 ->
            Allocate size (InitializePool size (mNumBlocksPerPool s) s)
            = (let st3 := InitializePool size (mNumBlocksPerPool s) s in
               let last := lastElementPtr (heap_next s) size
                                          (mNumBlocksPerPool st3) in
               if Mem.load64 (memory st3) last =? 0 then (0, st3)
               else
                 (Mem.load64 (memory st3) last,
                  set_memory
                    (store_after_allocate (memory st3) (heap_next s) size
                                          (mNumBlocksPerPool st3)) st3))).
  { intros s Hs. unfold Allocate at 1. rewrite Hnew.
    destruct (Z.eqb_spec (heap_next s) 0) as [? | _]; [contradiction |].
    rewrite Hnew. reflexivity. }
  destruct Hentry as [Hnone | Hnull].
  - exists (set_mPool (<[size := 0]> (mPool st)) st).
    split; [reflexivity |]. split; [reflexivity |].
    rewrite Hagain by exact Hheap.
    unfold Allocate at 1. rewrite (mPool_index_absent _ _ Hnone).
    cbn [Z.eqb]. rewrite Hnew. reflexivity.
  - exists st. split; [reflexivity |]. split; [reflexivity |].
    rewrite Hagain by exact Hheap.
    unfold Allocate at 1. rewrite (mPool_index_present _ _ _ Hnull).
    cbn [Z.eqb]. rewrite Hnew. reflexivity.
Qed.

(** X3.  Exhaustion for a pool that the first [Allocate] builds.  When
    the registry has no entry for [size], or a null entry such as a [Free]
    for that size leaves behind, the first [Allocate] builds the pool with
    the block count [n] of the allocator, 1 to 65535, for a size of 8 to
    2047 bytes.  Then [n] consecutive calls of [Allocate], the building
    one included, return [n] non-null, pairwise distinct addresses, and
    the next call returns null and leaves the state as it is. *)
Theorem lazy_pool_exhaustion st size n :
  mPool st !! size = None \/ mPool st !! size = Some 0 ->
  mNumBlocksPerPool st = n -> 1 <= n < 65536 -> 8 <= size < 2048 ->
  0 < heap_next st ->
  heap_next st + (size * n + 8 + n / 8 + 1) <= 2 ^ 64 ->
  exhausts_after size n st.
Proof.
  intros Hentry Hn Hrange Hsize Hheap Hroom.
  destruct (Allocate_creates_pool st size Hentry ltac:(lia))
    as (st1 & Hn1 & Hheap1 & Hfirst).
  rewrite Hn1, Hn in Hfirst.
  destruct (InitializePool_linked st1 size n Hsize ltac:(lia)
              ltac:(lia) ltac:(rewrite Hheap1; exact Hroom))
    as (Hpool & Hcount & Hlinked).
  rewrite Hn1, Hn in Hcount.
  assert (Hfresh : exhausts_after size n (InitializePool size n st1)).
  { apply (linked_pool_exhausts _ size (heap_next st1) n).
    - apply array_fits_pool; lia.
    - lia.
    - split; [exact Hpool | split; [exact Hcount | exact Hlinked]]. }
  unfold exhausts_after in *. cbv zeta in *.
  destruct (Z.to_nat n) as [| k] eqn:Hk; [lia |].
  cbn [allocate_n] in *. rewrite Hfirst. exact Hfresh.
Qed.

(** A pool of 24 bytes, which the constructor does not build. *)
Lemma lazy_pool_exhaustion_witness :
  exhausts_after 24 10 (MemoryManager_new 10 (Mem.filled 0) 4096).
Proof.
  apply (lazy_pool_exhaustion (MemoryManager_new 10 (Mem.filled 0) 4096)
           24 10).
  - left. vm_compute. reflexivity.
  - vm_compute. reflexivity.
  - lia.
  - lia.
  - vm_compute. reflexivity.
  - vm_compute. congruence.
Defined.

(** * Further properties of the code *)

(** ** What InitializePool writes *)

(** X5.  [InitializePool] writes the links of the blocks and the head slot
    and nothing else: for a block size of 8 to 2047 bytes and 1 to 65535
    blocks, every byte of the store below the array and every byte after
    the head slot, the bit field included, is as it was before the call. *)
Theorem InitializePool_footprint (st : State) (size n x : Z) :
  8 <= size < 2048 -> 1 <= n < 65536 ->
  0 < heap_next st ->
  heap_next st + (size * n + 8 + n / 8 + 1) <= 2 ^ 64 ->
  x < heap_next st \/ lastElementPtr (heap_next st) size n + 8 <= x ->
  Mem.load8 (memory (InitializePool size n st)) x = Mem.load8 (memory st) x.
Proof.
  intros Hsize Hn Hbase Hroom [Hx | Hx].
  - set (base := heap_next st) in *.
    set (stride := size / 8).
    assert (Hstride : 1 <= stride < 256).
    { subst stride. split.
      - apply Z.div_le_lower_bound; lia.
      - apply Z.div_lt_upper_bound; lia. }
    assert (Hpitch : 8 * stride <= size)
      by (subst stride; apply Z.mul_div_le; lia).
    assert (Hn8 : 0 <= n / 8) by (apply Z.div_pos; lia).
    unfold InitializePool, new_char_array, set_mPool, set_memory.
    cbn [mPool memory mNumBlocksPerPool heap_next arrays].
    unfold wrap16, wrap8, sizeof_ptr. fold base.
    rewrite (Z.mod_small n) by lia. fold stride.
    rewrite (Z.mod_small stride) by (change (2 ^ 8) with 256; lia).
    destruct (link_blocks (Z.to_nat (n - 1)) stride base (memory st))
      as [current m1] eqn:Hloop.
    cbn [memory].
    destruct (link_blocks_spec (Z.to_nat (n - 1)) stride base (memory st)
                ltac:(lia) ltac:(lia) ltac:(nia)) as (Hend & _ & Hout).
    rewrite Hloop in Hend, Hout. cbn [fst snd] in Hend, Hout.
    replace (Z.of_nat (Z.to_nat (n - 1))) with (n - 1) in * by lia.
    assert (Hcur' : wrap64 (current + 8 * stride) = base + 8 * (stride * n)).
    { rewrite Hend. unfold wrap64. rewrite Z.mod_small by nia. lia. }
    rewrite Hcur'.
    rewrite MemFacts.load8_store64_outside by nia.
    rewrite MemFacts.load8_store64_outside by nia.
    apply Hout. left. exact Hx.
  - apply InitializePool_keeps_bit_field; assumption.
Qed.

Lemma InitializePool_footprint_witness :
  Mem.load8 (memory (InitializePool 16 10 state_before_pool)) 4265
  = Mem.load8 (memory state_before_pool) 4265.
Proof.
  apply (InitializePool_footprint state_before_pool 16 10 4265).
  - lia.
  - lia.
  - vm_compute. reflexivity.
  - vm_compute. congruence.
  - right. vm_compute. congruence.
Defined.

(** ** Allocation past the limit *)

Lemma allocate_n_app a b size st :
  allocate_n (a + b) size st
  = (fst (allocate_n a size st)
       ++ fst (allocate_n b size (snd (allocate_n a size st))),
     snd (allocate_n b size (snd (allocate_n a size st)))).
Proof.
  revert st. induction a as [| a IH]; intros st.
  - cbn [allocate_n Nat.add fst snd app].
    destruct (allocate_n b size st). reflexivity.
  - cbn [allocate_n Nat.add]. destruct (Allocate size st) as [p st1].
    rewrite IH. destruct (allocate_n a size st1) as [ps st2].
    cbn [fst snd]. reflexivity.
Qed.

Lemma allocate_n_exhausted j size st :
  Allocate size st = (0, st) ->
  allocate_n j size st = (replicate j 0, st).
Proof.
  intros Hnull. induction j as [| j IH].
  - reflexivity.
  - cbn [allocate_n replicate]. rewrite Hnull, IH. reflexivity.
Qed.

(** X12.  The first test of Main.cpp allocates more objects than a pool
    has blocks.  For each of the three pools of the constructor, built with
    [n < 65536] blocks: of [n + j] consecutive calls of [Allocate] the
    first [n] return the blocks of the pool in the order of their
    addresses, [base + i * size], and the [j] calls past the limit return
    null and change nothing. *)
Theorem allocation_past_the_limit (n : Z) (m : Mem.t) (heap size : Z)
    (j : nat) :
  0 <= n < 65536 -> 0 < heap -> heap + 64 * n + 256 <= 2 ^ 64 ->
  size = 8 \/ size = 16 \/ size = 32 ->
  let st := MemoryManager_new n m heap in
  let base := default 0 (mPool st !! size) in
  fst (allocate_n (Z.to_nat n + j) size st)
  = map (fun i => base + Z.of_nat i * size) (seq 0 (Z.to_nat n))
      ++ replicate j 0
  /\ snd (allocate_n (Z.to_nat n + j) size st)
     = snd (allocate_n (Z.to_nat n) size st).
Proof.
  intros Hn Hheap Hroom Hsize st base.
  destruct (MemoryManager_new_linked n m heap Hn Hheap Hroom)
    as (H8 & H16 & H32).
  cbv zeta in H16, H32.
  assert (Hn8 : 0 <= n / 8 <= n)
    by (split; [apply Z.div_pos | apply Z.div_le_upper_bound]; lia).
  set (h16 := align16 (heap + pool_array_length 8 n)) in *.
  set (h32 := align16 (h16 + pool_array_length 16 n)) in *.
  pose proof (align16_bounds (heap + pool_array_length 8 n)) as Ha.
  pose proof (align16_bounds (h16 + pool_array_length 16 n)) as Hb.
  fold h16 in Ha. fold h32 in Hb.
  unfold pool_array_length in Ha, Hb.
  assert (Hpool : exists b,
            pool_linked st size b n 0 /\ pool_fits b size n /\
            size mod 8 = 0 /\ 8 <= size).
  { destruct Hsize as [-> | [-> | ->]].
    - exists heap. split; [exact H8 |]. split; [| split; [reflexivity | lia]].
      apply array_fits_pool; lia.
    - exists h16. split; [exact H16 |]. split; [| split; [reflexivity | lia]].
      apply array_fits_pool; lia.
    - exists h32. split; [exact H32 |]. split; [| split; [reflexivity | lia]].
      apply array_fits_pool; lia. }
  destruct Hpool as (b & Hlinked & Hfit & Hmult & Hsize8).
  assert (Hbase : base = b).
  { subst base. destruct Hlinked as (-> & _). reflexivity. }
  rewrite Hbase.
  destruct (allocate_n_linked (Z.to_nat n) st size b n 0 Hfit Hsize8 Hlinked
              ltac:(lia) ltac:(lia)) as [Haddr Hfull].
  replace (0 + Z.of_nat (Z.to_nat n)) with n in Hfull by lia.
  pose proof Hfit as (Hb0 & _ & _ & _).
  pose proof (Allocate_exhausted _ size b n ltac:(lia) Hfull) as Hnull.
  rewrite allocate_n_app, (allocate_n_exhausted j _ _ Hnull), Haddr.
  cbn [fst snd]. split; [| reflexivity]. f_equal.
  unfold block_addresses. apply map_ext. intros i.
  rewrite block_address_multiple by exact Hmult. f_equal; lia.
Qed.

(** Main.cpp: a hundred blocks, [poolSize + 2] objects of type [Dummy]. *)
Lemma allocation_past_the_limit_witness :
  let st := MemoryManager_new 100 (Mem.filled 0) 4096 in
  let base := default 0 (mPool st !! sizeof_Dummy) in
  fst (allocate_n (Z.to_nat 100 + 2) sizeof_Dummy st)
  = map (fun i => base + Z.of_nat i * sizeof_Dummy) (seq 0 (Z.to_nat 100))
      ++ replicate 2 0
  /\ snd (allocate_n (Z.to_nat 100 + 2) sizeof_Dummy st)
     = snd (allocate_n (Z.to_nat 100) sizeof_Dummy st).
Proof.
  apply (allocation_past_the_limit 100 (Mem.filled 0) 4096 sizeof_Dummy 2).
  - lia.
  - lia.
  - vm_compute. congruence.
  - right. left. reflexivity.
Defined.

(** ** Allocate followed by Free *)

Lemma horner_byte b r :
  0 <= b < 256 -> (b + 256 * r) mod 256 = b /\ (b + 256 * r) / 256 = r.
Proof.
  intros Hb. rewrite (Z.mul_comm 256 r). split.
  - rewrite Z_mod_plus_full. apply Z.mod_small. exact Hb.
  - rewrite Z_div_plus_full by lia. rewrite Z.div_small by exact Hb. lia.
Qed.

(** The byte at [a + k] of the store is byte [k] of the word read at
    [a]. *)
Lemma byte_of_load64 m a k :
  0 <= k < 8 ->
  (Mem.load64 m a / 256 ^ k) mod 256 = Mem.load8 m (a + k).
Proof.
  intros Hk. unfold Mem.load64.
  pose proof (MemFacts.load8_range m a) as H0.
  pose proof (MemFacts.load8_range m (a + 1)) as H1.
  pose proof (MemFacts.load8_range m (a + 2)) as H2.
  pose proof (MemFacts.load8_range m (a + 3)) as H3.
  pose proof (MemFacts.load8_range m (a + 4)) as H4.
  pose proof (MemFacts.load8_range m (a + 5)) as H5.
  pose proof (MemFacts.load8_range m (a + 6)) as H6.
  pose proof (MemFacts.load8_range m (a + 7)) as H7.
  set (b0 := Mem.load8 m a) in *. set (b1 := Mem.load8 m (a + 1)) in *.
  set (b2 := Mem.load8 m (a + 2)) in *. set (b3 := Mem.load8 m (a + 3)) in *.
  set (b4 := Mem.load8 m (a + 4)) in *. set (b5 := Mem.load8 m (a + 5)) in *.
  set (b6 := Mem.load8 m (a + 6)) in *. set (b7 := Mem.load8 m (a + 7)) in *.
  assert (Hstep : forall v j, 0 < j -> v / 256 ^ j = v / 256 / 256 ^ (j - 1)).
  { intros v j Hj. replace j with (1 + (j - 1)) at 1 by lia.
    rewrite Z.pow_add_r by lia. change (256 ^ 1) with 256.
    rewrite Z.div_div by lia. reflexivity. }
  assert (Hlast : forall b, 0 <= b < 256 -> b / 256 ^ 0 mod 256 = b).
  { intros b Hb. rewrite Z.pow_0_r, Z.div_1_r. apply Z.mod_small. exact Hb. }
  assert (Hhead : forall b r, 0 <= b < 256 ->
            (b + 256 * r) / 256 ^ 0 mod 256 = b).
  { intros b r Hb. rewrite Z.pow_0_r, Z.div_1_r.
    apply (proj1 (horner_byte b r Hb)). }
  assert (Hcases : k = 0 \/ k = 1 \/ k = 2 \/ k = 3 \/ k = 4 \/ k = 5 \/
                   k = 6 \/ k = 7) by lia.
  destruct Hcases as [-> | [-> | [-> | [-> | [-> | [-> | [-> | ->]]]]]]].
  - replace (a + 0) with a by lia. apply Hhead. exact H0.
  - rewrite (Hstep _ 1), (proj2 (horner_byte b0 _ H0)) by lia.
    apply Hhead. exact H1.
  - rewrite (Hstep _ 2), (proj2 (horner_byte b0 _ H0)) by lia.
    rewrite (Hstep _ (2 - 1)), (proj2 (horner_byte b1 _ H1)) by lia.
    apply Hhead. exact H2.
  - rewrite (Hstep _ 3), (proj2 (horner_byte b0 _ H0)) by lia.
    rewrite (Hstep _ (3 - 1)), (proj2 (horner_byte b1 _ H1)) by lia.
    rewrite (Hstep _ (3 - 1 - 1)), (proj2 (horner_byte b2 _ H2)) by lia.
    apply Hhead. exact H3.
  - rewrite (Hstep _ 4), (proj2 (horner_byte b0 _ H0)) by lia.
    rewrite (Hstep _ (4 - 1)), (proj2 (horner_byte b1 _ H1)) by lia.
    rewrite (Hstep _ (4 - 1 - 1)), (proj2 (horner_byte b2 _ H2)) by lia.
    rewrite (Hstep _ (4 - 1 - 1 - 1)), (proj2 (horner_byte b3 _ H3)) by lia.
    apply Hhead. exact H4.
  - rewrite (Hstep _ 5), (proj2 (horner_byte b0 _ H0)) by lia.
    rewrite (Hstep _ (5 - 1)), (proj2 (horner_byte b1 _ H1)) by lia.
    rewrite (Hstep _ (5 - 1 - 1)), (proj2 (horner_byte b2 _ H2)) by lia.
    rewrite (Hstep _ (5 - 1 - 1 - 1)), (proj2 (horner_byte b3 _ H3)) by lia.
    rewrite (Hstep _ (5 - 1 - 1 - 1 - 1)), (proj2 (horner_byte b4 _ H4))
      by lia.
    apply Hhead. exact H5.
  - rewrite (Hstep _ 6), (proj2 (horner_byte b0 _ H0)) by lia.
    rewrite (Hstep _ (6 - 1)), (proj2 (horner_byte b1 _ H1)) by lia.
    rewrite (Hstep _ (6 - 1 - 1)), (proj2 (horner_byte b2 _ H2)) by lia.
    rewrite (Hstep _ (6 - 1 - 1 - 1)), (proj2 (horner_byte b3 _ H3)) by lia.
    rewrite (Hstep _ (6 - 1 - 1 - 1 - 1)), (proj2 (horner_byte b4 _ H4))
      by lia.
    rewrite (Hstep _ (6 - 1 - 1 - 1 - 1 - 1)), (proj2 (horner_byte b5 _ H5))
      by lia.
    apply Hhead. exact H6.
  - rewrite (Hstep _ 7), (proj2 (horner_byte b0 _ H0)) by lia.
    rewrite (Hstep _ (7 - 1)), (proj2 (horner_byte b1 _ H1)) by lia.
    rewrite (Hstep _ (7 - 1 - 1)), (proj2 (horner_byte b2 _ H2)) by lia.
    rewrite (Hstep _ (7 - 1 - 1 - 1)), (proj2 (horner_byte b3 _ H3)) by lia.
    rewrite (Hstep _ (7 - 1 - 1 - 1 - 1)), (proj2 (horner_byte b4 _ H4))
      by lia.
    rewrite (Hstep _ (7 - 1 - 1 - 1 - 1 - 1)), (proj2 (horner_byte b5 _ H5))
      by lia.
    rewrite (Hstep _ (7 - 1 - 1 - 1 - 1 - 1 - 1)),
      (proj2 (horner_byte b6 _ H6)) by lia.
    apply Hlast. exact H7.
Qed.

(** A word read from [m] at [a] and stored at [a] puts the bytes of [m]
    there. *)
Lemma store64_of_load64 m m' a x :
  a <= x < a + 8 ->
  Mem.load8 (Mem.store64 m' a (Mem.load64 m a)) x = Mem.load8 m x.
Proof.
  intros Hx. rewrite MemFacts.load8_store64_inside by exact Hx.
  rewrite byte_of_load64 by lia. f_equal. lia.
Qed.

Lemma xor_undoes_or b s :
  0 <= s <= 7 -> 0 <= b < 256 -> Z.land b (Z.shiftl 1 s) = 0 ->
  Z.lxor (Z.lor b (Z.shiftl 1 s) mod 256) (Z.shiftl 1 s) mod 256 = b.
Proof.
  intros Hs Hb Hclear. rewrite land_single_bit in Hclear by lia.
  assert (Hbit : Z.testbit b s = false).
  { destruct (Z.testbit b s); [| reflexivity].
    assert (0 < 2 ^ s) by (apply Z.pow_pos_nonneg; lia). lia. }
  assert (Hb8 : b mod 2 ^ 8 = b) by (apply Z.mod_small; exact Hb).
  rewrite <- Hb8 at 2. change 256 with (2 ^ 8).
  apply Z.bits_inj'. intros k Hk.
  destruct (Z_lt_ge_dec k 8) as [Hlt | Hge].
  - rewrite !Z.mod_pow2_bits_low by lia.
    rewrite Z.lxor_spec, Z.mod_pow2_bits_low, Z.lor_spec by lia.
    rewrite Z.shiftl_1_l, Z.pow2_bits_eqb by lia.
    destruct (Z.eqb_spec s k) as [<- | _].
    + rewrite Hbit. reflexivity.
    + rewrite orb_false_r, xorb_false_r. reflexivity.
  - rewrite !Z.mod_pow2_bits_high by lia. reflexivity.
Qed.

(** The stores of [Allocate] and of the [Free] that gives the block back,
    one after the other, for a pool whose head block has its bit at 0. *)
Lemma store_round_trip m base size n :
  pool_fits base size n ->
  let last := lastElementPtr base size n in
  let head := Mem.load64 m last in
  let index := indexBlockAllocated head base size in
  let byte := desiredByte last index in
  in_blocks base size n head ->
  Z.land (Mem.load8 m byte) (Z.shiftl 1 (shiftValue index)) = 0 ->
  let ma := store_after_allocate m base size n in
  Z.land (Mem.load8 ma byte) (Z.shiftl 1 (shiftValue index)) <> 0 /\
  forall x,
    Mem.load8 (store_after_free ma base size n head) x = Mem.load8 m x.
Proof.
  intros Hfit last head index byte Hin Hclear ma.
  pose proof (index_in_blocks _ _ _ _ Hfit Hin) as Hidx. fold index in Hidx.
  pose proof (desiredByte_fits _ _ _ _ Hfit Hidx) as Hbyte.
  pose proof (lastElementPtr_fits _ _ _ Hfit) as Hlast.
  fold last in Hbyte, Hlast. rewrite <- Hlast in Hbyte. fold byte in Hbyte.
  pose proof (shiftValue_range index) as Hshift.
  pose proof (MemFacts.load8_range m byte) as Hb.
  assert (0 <= index / 8) by (apply Z.div_pos; lia).
  destruct Hin as [Hlo Hhi]. fold last in Hhi. unfold sizeof_ptr in Hhi.
  assert (Hma : forall x,
            Mem.load8 ma x =
            if (last <=? x) && (x <? last + 8)
            then Mem.load8 m (head + (x - last))
            else if x =? byte
                 then Z.lor (Mem.load8 m byte)
                            (Z.shiftl 1 (shiftValue index)) mod 256
                 else Mem.load8 m x).
  { intros x. unfold ma, store_after_allocate. cbv zeta.
    fold last. fold head. fold index. fold byte.
    destruct (Z.leb_spec last x); destruct (Z.ltb_spec x (last + 8));
      cbn [andb].
    - rewrite MemFacts.load64_store8_outside by lia.
      rewrite MemFacts.load8_store64_inside by lia.
      apply byte_of_load64. lia.
    - rewrite MemFacts.load8_store64_outside by lia.
      destruct (Z.eqb_spec x byte) as [-> | Hne].
      + apply MemFacts.load8_store8_same.
      + apply MemFacts.load8_store8_other. exact Hne.
    - rewrite MemFacts.load8_store64_outside by lia.
      destruct (Z.eqb_spec x byte) as [-> | Hne]; [lia |].
      apply MemFacts.load8_store8_other. exact Hne.
    - lia. }
  assert (Hbit : Mem.load8 ma byte
                 = Z.lor (Mem.load8 m byte)
                         (Z.shiftl 1 (shiftValue index)) mod 256).
  { rewrite Hma.
    destruct (Z.leb_spec last byte); destruct (Z.ltb_spec byte (last + 8));
      cbn [andb]; try lia; rewrite Z.eqb_refl; reflexivity. }
  split.
  - rewrite Hbit, bit_set_after_or by exact Hshift.
    assert (0 < 2 ^ shiftValue index) by (apply Z.pow_pos_nonneg; lia). lia.
  - intros x. unfold store_after_free. cbv zeta.
    fold last. fold index. fold byte.
    rewrite MemFacts.load64_store8_outside by lia.
    assert (Hhead : Mem.load64 ma last = Mem.load64 m head).
    { unfold ma, store_after_allocate. cbv zeta.
      fold last. fold head. fold index. fold byte.
      rewrite MemFacts.load64_store64_value
        by apply MemFacts.load64_range.
      apply MemFacts.load64_store8_outside. lia. }
    rewrite Hhead.
    destruct (Z_le_gt_dec last x) as [Hle | Hgt];
      [destruct (Z_lt_ge_dec x (last + 8)) as [Hlt | Hge] |].
    + apply store64_of_load64. lia.
    + rewrite MemFacts.load8_store64_outside by lia.
      rewrite MemFacts.load8_store64_outside by lia.
      destruct (Z.eq_dec x byte) as [-> | Hne].
      * rewrite MemFacts.load8_store8_same, Hbit.
        apply xor_undoes_or; assumption.
      * rewrite MemFacts.load8_store8_other by exact Hne.
        rewrite Hma.
        destruct (Z.leb_spec last x); destruct (Z.ltb_spec x (last + 8));
          cbn [andb]; try lia.
        destruct (Z.eqb_spec x byte); [contradiction | reflexivity].
    + rewrite MemFacts.load8_store64_outside by lia.
      destruct (Z_le_gt_dec head x) as [Hle | Hgt'];
        [destruct (Z_lt_ge_dec x (head + 8)) as [Hlt | Hge] |].
      * apply store64_of_load64. lia.
      * rewrite MemFacts.load8_store64_outside by lia.
        rewrite MemFacts.load8_store8_other by lia.
        rewrite Hma.
        destruct (Z.leb_spec last x); destruct (Z.ltb_spec x (last + 8));
          cbn [andb]; try lia.
        destruct (Z.eqb_spec x byte); [lia | reflexivity].
      * rewrite MemFacts.load8_store64_outside by lia.
        rewrite MemFacts.load8_store8_other by lia.
        rewrite Hma.
        destruct (Z.leb_spec last x); destruct (Z.ltb_spec x (last + 8));
          cbn [andb]; try lia.
        destruct (Z.eqb_spec x byte); [lia | reflexivity].
Qed.

(** X9.  Allocate and then Free of the block it returned is a round trip:
    when the pool for [size] exists and lies in the address space, its head
    slot points into its blocks and the bit of that block is 0, then
    [Allocate] returns that block, [Free] of it leaves through the success
    exit with the caller's pointer set to null, and the state after the two
    calls is the state before them: the same registry, block count and
    arrays, and every byte of the store holds what it held, the bytes of
    the block, of the head slot and of the bit field included. *)
Theorem allocate_then_free_restores_store (st : State) (size base : Z) :
  mPool st !! size = Some base ->
  pool_fits base size (mNumBlocksPerPool st) ->
  in_blocks base size (mNumBlocksPerPool st) (free_list_head st size) ->
  allocation_bit st size
    (indexBlockAllocated (free_list_head st size) base size) = 0 ->
  let r := Free size (fst (Allocate size st)) (snd (Allocate size st)) in
  fst (Allocate size st) = free_list_head st size /\
  exit_of r = Freed /\ pointer_of r = 0 /\
  mPool (state_of r) = mPool st /\
  mNumBlocksPerPool (state_of r) = mNumBlocksPerPool st /\
  heap_next (state_of r) = heap_next st /\
  arrays (state_of r) = arrays st /\
  forall x, Mem.load8 (memory (state_of r)) x = Mem.load8 (memory st) x.
Proof.
  intros Hpool Hfit Hin Hclear.
  assert (Hbase : base <> 0) by (destruct Hfit; lia).
  assert (Hhead : free_list_head st size <> 0).
  { destruct Hfit as [? _]. destruct Hin as [? _]. lia. }
  rewrite (Allocate_present _ _ _ Hpool Hbase).
  destruct (Z.eqb_spec (free_list_head st size) 0) as [? | _];
    [contradiction |].
  cbn [fst snd].
  rewrite (free_list_head_present _ _ _ Hpool) in *.
  rewrite (allocation_bit_present _ _ _ _ Hpool) in Hclear.
  destruct (store_round_trip (memory st) base size (mNumBlocksPerPool st)
              Hfit Hin Hclear) as [Hset Hsame].
  set (head := Mem.load64 (memory st)
                 (lastElementPtr base size (mNumBlocksPerPool st))) in *.
  set (st1 := set_memory _ st).
  assert (Hpool1 : mPool st1 !! size = Some base) by exact Hpool.
  cbv zeta.
  rewrite (Free_present _ _ _ _ Hpool1 Hhead).
  rewrite (allocation_bit_present _ _ _ _ Hpool1).
  change (mNumBlocksPerPool st1) with (mNumBlocksPerPool st).
  change (memory st1)
    with (store_after_allocate (memory st) base size (mNumBlocksPerPool st)).
  match goal with
  | |- context [Z.eqb ?b 0] =>
      destruct (Z.eqb_spec b 0) as [Hz | _]; [contradiction |]
  end.
  repeat split. exact Hsame.
Qed.

Lemma allocate_then_free_restores_store_witness :
  let st := MemoryManager_new 10 (Mem.filled 0) 4096 in
  let r := Free 16 (fst (Allocate 16 st)) (snd (Allocate 16 st)) in
  fst (Allocate 16 st) = free_list_head st 16 /\
  exit_of r = Freed /\ pointer_of r = 0 /\
  mPool (state_of r) = mPool st /\
  mNumBlocksPerPool (state_of r) = mNumBlocksPerPool st /\
  heap_next (state_of r) = heap_next st /\
  arrays (state_of r) = arrays st /\
  forall x, Mem.load8 (memory (state_of r)) x = Mem.load8 (memory st) x.
Proof.
  apply (allocate_then_free_restores_store
           (MemoryManager_new 10 (Mem.filled 0) 4096) 16 4192).
  - vm_compute. reflexivity.
  - unfold pool_fits, sizeof_ptr, NUMBITSPERBYTE. vm_compute.
    repeat split; congruence.
  - unfold in_blocks. vm_compute. split; congruence.
  - vm_compute. reflexivity.
Defined.

(** ** What Allocate and Free write *)

(** X10.  [Allocate] writes no block: when the pool for [size] exists and
    lies in the address space and its head slot is null or points into its
    blocks, the call changes the registry, the block count and the arrays
    not at all, and of the store only bytes of the head slot and of the bit
    field of that pool.  Every byte below the head slot, the contents of
    all blocks of the pool among them, and every byte behind the bit field
    holds what it held. *)
Theorem Allocate_footprint (st : State) (size base x : Z) :
  mPool st !! size = Some base ->
  pool_fits base size (mNumBlocksPerPool st) ->
  free_list_head st size = 0 \/
  in_blocks base size (mNumBlocksPerPool st) (free_list_head st size) ->
  x < lastElementPtr base size (mNumBlocksPerPool st) \/
  lastElementPtr base size (mNumBlocksPerPool st) + 8
    + mNumBlocksPerPool st / 8 + 1 <= x ->
  let st' := snd (Allocate size st) in
  mPool st' = mPool st /\ mNumBlocksPerPool st' = mNumBlocksPerPool st /\
  heap_next st' = heap_next st /\ arrays st' = arrays st /\
  Mem.load8 (memory st') x = Mem.load8 (memory st) x.
Proof.
  intros Hpool Hfit Hhead Hx.
  assert (Hbase : base <> 0) by (destruct Hfit; lia).
  rewrite (Allocate_present _ _ _ Hpool Hbase).
  destruct (Z.eqb_spec (free_list_head st size) 0) as [Hz | Hnz].
  { cbn [snd]. repeat split. }
  destruct Hhead as [? | Hin]; [contradiction |].
  cbn [snd]. repeat split. cbn [set_memory memory].
  rewrite (free_list_head_present _ _ _ Hpool) in Hin.
  pose proof (index_in_blocks _ _ _ _ Hfit Hin) as Hidx.
  pose proof (desiredByte_fits _ _ _ _ Hfit Hidx) as Hbyte.
  rewrite <- (lastElementPtr_fits _ _ _ Hfit) in Hbyte.
  unfold store_after_allocate. cbv zeta.
  set (last := lastElementPtr base size (mNumBlocksPerPool st)) in *.
  set (index := indexBlockAllocated _ base size) in *.
  assert (0 <= index / 8 <= mNumBlocksPerPool st / 8).
  { split; [apply Z.div_pos; lia | apply Z.div_le_mono; lia]. }
  rewrite MemFacts.load8_store64_outside by lia.
  apply MemFacts.load8_store8_other. lia.
Qed.

Lemma Allocate_footprint_witness :
  let st := MemoryManager_new 10 (Mem.filled 0) 4096 in
  let st' := snd (Allocate 16 st) in
  mPool st' = mPool st /\ mNumBlocksPerPool st' = mNumBlocksPerPool st /\
  heap_next st' = heap_next st /\ arrays st' = arrays st /\
  Mem.load8 (memory st') 4200 = Mem.load8 (memory st) 4200.
Proof.
  apply (Allocate_footprint
           (MemoryManager_new 10 (Mem.filled 0) 4096) 16 4192 4200).
  - vm_compute. reflexivity.
  - unfold pool_fits, sizeof_ptr, NUMBITSPERBYTE. vm_compute.
    repeat split; congruence.
  - right. unfold in_blocks. vm_compute. split; congruence.
  - left. vm_compute. reflexivity.
Defined.

(** X11.  [Free] of a block of the pool writes the first pointer-width
    bytes of that block, the head slot and the bit field of the pool, and
    nothing else: when the pool for [size] exists and lies in the address
    space and [block] points into its blocks, the call changes the
    registry, the block count and the arrays not at all, and every byte
    outside the first eight of [block] that lies below the head slot or
    behind the bit field holds what it held, whichever exit is taken. *)
Theorem Free_footprint (st : State) (size base block x : Z) :
  mPool st !! size = Some base ->
  pool_fits base size (mNumBlocksPerPool st) ->
  in_blocks base size (mNumBlocksPerPool st) block ->
  x < block \/ block + 8 <= x ->
  x < lastElementPtr base size (mNumBlocksPerPool st) \/
  lastElementPtr base size (mNumBlocksPerPool st) + 8
    + mNumBlocksPerPool st / 8 + 1 <= x ->
  let st' := state_of (Free size block st) in
  mPool st' = mPool st /\ mNumBlocksPerPool st' = mNumBlocksPerPool st /\
  heap_next st' = heap_next st /\ arrays st' = arrays st /\
  Mem.load8 (memory st') x = Mem.load8 (memory st) x.
Proof.
  intros Hpool Hfit Hin Hblock Hx.
  assert (Hnz : block <> 0).
  { destruct Hfit as [? _]. destruct Hin as [? _]. lia. }
  rewrite (Free_present _ _ _ _ Hpool Hnz).
  destruct (Z.eqb_spec
              (allocation_bit st size (indexBlockAllocated block base size)) 0)
    as [Hz | Hset].
  { cbn [state_of snd]. repeat split. }
  unfold state_of. cbn [snd]. repeat split. cbn [set_memory memory].
  pose proof (index_in_blocks _ _ _ _ Hfit Hin) as Hidx.
  pose proof (desiredByte_fits _ _ _ _ Hfit Hidx) as Hbyte.
  rewrite <- (lastElementPtr_fits _ _ _ Hfit) in Hbyte.
  unfold store_after_free. cbv zeta.
  set (last := lastElementPtr base size (mNumBlocksPerPool st)) in *.
  set (index := indexBlockAllocated _ base size) in *.
  assert (0 <= index / 8 <= mNumBlocksPerPool st / 8).
  { split; [apply Z.div_pos; lia | apply Z.div_le_mono; lia]. }
  destruct Hin as [_ Hhi]. unfold sizeof_ptr in Hhi.
  rewrite MemFacts.load8_store64_outside by lia.
  rewrite MemFacts.load8_store64_outside by lia.
  apply MemFacts.load8_store8_other. lia.
Qed.

Lemma Free_footprint_witness :
  let st := state_all_allocated in
  let st' := state_of (Free 16 4240 st) in
  mPool st' = mPool st /\ mNumBlocksPerPool st' = mNumBlocksPerPool st /\
  heap_next st' = heap_next st /\ arrays st' = arrays st /\
  Mem.load8 (memory st') 4248 = Mem.load8 (memory st) 4248.
Proof.
  apply (Free_footprint state_all_allocated 16 4192 4240 4248).
  - vm_compute. reflexivity.
  - unfold pool_fits, sizeof_ptr, NUMBITSPERBYTE. vm_compute.
    repeat split; congruence.
  - unfold in_blocks. vm_compute. split; congruence.
  - right. lia.
  - left. vm_compute. reflexivity.
Defined.

(** ** The order in which freed blocks come back *)

(** A pool whose blocks are all chained satisfies the invariant with
    every block in the free list and none handed out. *)
Lemma pool_linked_inv size base n st :
  0 <= n -> pool_linked st size base n 0 ->
  pool_inv size base n st (seqZ 0 n) ∅.
Proof.
  intros Hn (Hpool & Hcount & Hhead & Hlinks).
  split; [exact Hpool |]. split; [exact Hcount |]. split.
  - rewrite (free_list_head_present _ _ _ Hpool), Hcount, Hhead.
    replace n with (n - 0) at 2 by lia.
    apply (linked_from_chained _ _ _ _ (Z.to_nat n)); [lia | lia |].
    exact Hlinks.
  - split; [apply NoDup_seqZ |]. split.
    + intros i Hi. apply elem_of_seqZ in Hi. split; [lia | set_solver].
    + intros i Hi. set_solver.
Qed.

(** [Free] of blocks that are handed out, no block twice: every call
    succeeds, and the blocks are in the free list, the last one first. *)
Lemma pool_inv_free_n size base n ks :
  size mod 8 = 0 -> 8 <= size -> n < 2 ^ 32 -> pool_fits base size n ->
  forall st fl A,
    pool_inv size base n st fl A -> NoDup ks -> (forall i, i ∈ ks -> i ∈ A) ->
    fst (free_n size (map (block_address base size) ks) st)
    = replicate (length ks) Freed
    /\ pool_inv size base n
         (snd (free_n size (map (block_address base size) ks) st))
         (rev ks ++ fl) (A ∖ list_to_set ks).
Proof.
  intros Hmult Hsize Hcount Hfit.
  induction ks as [| i ks IH]; intros st fl A Hinv Hnd Hin.
  - rewrite list_to_set_nil, difference_empty_L.
    split; [reflexivity | exact Hinv].
  - cbn [map free_n]. cbv zeta.
    assert (HiA : i ∈ A) by (apply Hin; left).
    destruct (pool_inv_Free size base n Hmult Hsize Hcount Hfit st fl A i
                Hinv HiA) as (Hexit & _ & Hinv' & _).
    apply NoDup_cons in Hnd as [Hni Hnd'].
    destruct (IH _ _ _ Hinv' Hnd') as [Hexits HA'].
    { intros j Hj. apply elem_of_difference. split.
      - apply Hin. right. exact Hj.
      - intros Hji. apply elem_of_singleton in Hji. subst j. contradiction. }
    destruct (free_n size (map (block_address base size) ks)
                (state_of (Free size (block_address base size i) st)))
      as [es st2].
    cbn [fst snd] in *. rewrite Hexit, Hexits.
    split; [reflexivity |].
    cbn [rev]. rewrite <- app_assoc.
    rewrite list_to_set_cons, <- difference_difference_l_L. exact HA'.
Qed.

(** [Allocate] as often as the free list has blocks in front: the blocks
    come in the order of the free list, and all of them are handed out
    afterwards. *)
Lemma pool_inv_allocate_n size base n ks :
  size mod 8 = 0 -> 8 <= size -> n < 2 ^ 32 -> pool_fits base size n ->
  forall st fl A,
    pool_inv size base n st (ks ++ fl) A ->
    fst (allocate_n (length ks) size st) = map (block_address base size) ks
    /\ pool_inv size base n (snd (allocate_n (length ks) size st)) fl
         (list_to_set ks ∪ A).
Proof.
  intros Hmult Hsize Hcount Hfit.
  induction ks as [| k ks IH]; intros st fl A Hinv.
  - rewrite list_to_set_nil, union_empty_l_L.
    split; [reflexivity | exact Hinv].
  - cbn [length allocate_n map].
    destruct (pool_inv_Allocate size base n Hmult Hsize Hcount Hfit st k
                (ks ++ fl) A Hinv) as (Haddr & Hinv' & _).
    destruct (Allocate size st) as [p st1]. cbn [fst snd] in *.
    destruct (IH _ _ _ Hinv') as [Haddrs HA'].
    destruct (allocate_n (length ks) size st1) as [ps st2].
    cbn [fst snd] in *. rewrite Haddr, Haddrs.
    split; [reflexivity |].
    rewrite list_to_set_cons, (union_comm_L {[k]} (list_to_set ks)).
    rewrite <- union_assoc_L. exact HA'.
Qed.

(** Each of the three pools of the constructor lies in the address space
    and has all its blocks chained. *)
Lemma constructor_pool n m heap size :
  0 <= n < 65536 -> 0 < heap -> heap + 64 * n + 256 <= 2 ^ 64 ->
  size = 8 \/ size = 16 \/ size = 32 ->
  exists base,
    pool_linked (MemoryManager_new n m heap) size base n 0
    /\ pool_fits base size n /\ size mod 8 = 0 /\ 8 <= size.
Proof.
  intros Hn Hheap Hroom Hsize.
  destruct (MemoryManager_new_linked n m heap Hn Hheap Hroom)
    as (H8 & H16 & H32).
  cbv zeta in H16, H32.
  assert (Hn8 : 0 <= n / 8 <= n)
    by (split; [apply Z.div_pos | apply Z.div_le_upper_bound]; lia).
  set (h16 := align16 (heap + pool_array_length 8 n)) in *.
  set (h32 := align16 (h16 + pool_array_length 16 n)) in *.
  pose proof (align16_bounds (heap + pool_array_length 8 n)) as Ha.
  pose proof (align16_bounds (h16 + pool_array_length 16 n)) as Hb.
  fold h16 in Ha. fold h32 in Hb.
  unfold pool_array_length in Ha, Hb.
  destruct Hsize as [-> | [-> | ->]].
  - exists heap. split; [exact H8 |]. split; [| split; [reflexivity | lia]].
    apply array_fits_pool; lia.
  - exists h16. split; [exact H16 |]. split; [| split; [reflexivity | lia]].
    apply array_fits_pool; lia.
  - exists h32. split; [exact H32 |]. split; [| split; [reflexivity | lia]].
    apply array_fits_pool; lia.
Qed.

(** After [n] calls of [Allocate] on a pool of the constructor every block
    is handed out and the free list is empty, and further calls change
    nothing. *)
Lemma constructor_pool_full n m heap size base (j : nat) :
  0 <= n < 65536 ->
  pool_linked (MemoryManager_new n m heap) size base n 0 ->
  pool_fits base size n -> size mod 8 = 0 -> 8 <= size ->
  pool_inv size base n
    (snd (allocate_n (Z.to_nat n + j) size (MemoryManager_new n m heap)))
    [] (list_to_set (seqZ 0 n)).
Proof.
  intros Hn Hlinked Hfit Hmult Hsize.
  assert (Hn0 : 0 <= n) by lia.
  pose proof (pool_linked_inv _ _ _ _ Hn0 Hlinked) as Hinv.
  rewrite <- (app_nil_r (seqZ 0 n)) in Hinv.
  destruct (pool_inv_allocate_n size base n (seqZ 0 n) Hmult Hsize
              ltac:(lia) Hfit _ _ _ Hinv) as [_ HA].
  rewrite length_seqZ in HA.
  rewrite union_empty_r_L in HA.
  pose proof (pool_inv_Allocate_exhausted size base n Hmult Hfit _ _ HA)
    as Hnull.
  rewrite allocate_n_app, (allocate_n_exhausted j _ _ Hnull). cbn [snd].
  exact HA.
Qed.

(** X13.  The second and third test of Main.cpp: after the allocations of
    the first test, which leave the pool exhausted, blocks are freed and
    then allocated again.  For each of the three pools of the constructor,
    built with [n < 65536] blocks, and any list of pairwise distinct block
    numbers below [n]: [Free] of these blocks, one after the other, leaves
    every time through the success exit, and of as many calls of
    [Allocate] plus one the first return exactly the freed blocks, the one
    freed last first, and the last call returns null: the pool is
    exhausted again. *)
Theorem freed_blocks_return_in_reverse (n : Z) (m : Mem.t) (heap size : Z)
    (ks : list Z) :
  0 <= n < 65536 -> 0 < heap -> heap + 64 * n + 256 <= 2 ^ 64 ->
  size = 8 \/ size = 16 \/ size = 32 ->
  NoDup ks -> Forall (fun i => 0 <= i < n) ks ->
  let st := MemoryManager_new n m heap in
  let base := default 0 (mPool st !! size) in
  let full := snd (allocate_n (Z.to_nat n + 2) size st) in
  let blocks := map (fun i => base + i * size) ks in
  let freed := free_n size blocks full in
  fst freed = replicate (length ks) Freed
  /\ fst (allocate_n (length ks + 1) size (snd freed)) = rev blocks ++ [0].
Proof.
  intros Hn Hheap Hroom Hsize Hnd Hrange st base full blocks freed.
  destruct (constructor_pool n m heap size Hn Hheap Hroom Hsize)
    as (b & Hlinked & Hfit & Hmult & Hsize8).
  assert (Hbase : base = b).
  { subst base. destruct Hlinked as (Hpool & _). unfold st.
    rewrite Hpool. reflexivity. }
  assert (Hblocks : blocks = map (block_address b size) ks).
  { unfold blocks. rewrite Hbase. apply map_ext. intros i.
    symmetry. apply block_address_multiple. exact Hmult. }
  pose proof (constructor_pool_full n m heap size b 2 Hn Hlinked Hfit Hmult
                Hsize8) as Hfull.
  fold st in Hfull. fold full in Hfull.
  destruct (pool_inv_free_n size b n ks Hmult Hsize8 ltac:(lia) Hfit
              full [] _ Hfull Hnd) as [Hexits HA'].
  { intros i Hi. apply elem_of_list_to_set, elem_of_seqZ.
    pose proof (proj1 (Forall_forall _ _) Hrange i Hi) as Hi'.
    cbv beta in Hi'. lia. }
  rewrite <- Hblocks in Hexits, HA'. fold freed in Hexits, HA'.
  split; [exact Hexits |].
  destruct (pool_inv_allocate_n size b n (rev ks) Hmult Hsize8 ltac:(lia)
              Hfit _ _ _ HA') as [Haddrs HA''].
  rewrite length_rev in Haddrs, HA''.
  pose proof (pool_inv_Allocate_exhausted size b n Hmult Hfit _ _ HA'')
    as Hnull.
  rewrite allocate_n_app. cbn [fst]. rewrite Haddrs.
  rewrite (allocate_n_exhausted 1 _ _ Hnull). cbn [fst replicate].
  rewrite Hblocks, map_rev. reflexivity.
Qed.

(** Main.cpp with a hundred blocks of type [Dummy]: blocks 40, 7 and 93
    are freed. *)
Lemma freed_blocks_return_in_reverse_witness :
  let st := MemoryManager_new 100 (Mem.filled 0) 4096 in
  let base := default 0 (mPool st !! sizeof_Dummy) in
  let full := snd (allocate_n (Z.to_nat 100 + 2) sizeof_Dummy st) in
  let blocks := map (fun i => base + i * sizeof_Dummy) [40; 7; 93] in
  let freed := free_n sizeof_Dummy blocks full in
  fst freed = replicate (length [40; 7; 93]) Freed
  /\ fst (allocate_n (length [40; 7; 93] + 1) sizeof_Dummy (snd freed))
     = rev blocks ++ [0].
Proof.
  apply (freed_blocks_return_in_reverse 100 (Mem.filled 0) 4096 sizeof_Dummy
           [40; 7; 93]).
  - lia.
  - lia.
  - vm_compute. congruence.
  - right. left. reflexivity.
  - apply (bool_decide_unpack _). vm_compute. exact I.
  - repeat constructor; lia.
Defined.

(** ** Double deletes *)

Lemma Free_result (r : FreeExit * Z * State) :
  r = (exit_of r, pointer_of r, state_of r).
Proof. destruct r as [[e p] s]. reflexivity. Qed.

(** X14.  The fourth test of Main.cpp, lines 70-79.  Let the pool for
    [size], a multiple of 8, satisfy the invariant, and let [ptr[r0]] and
    [ptr[r1]] be two different blocks that are handed out.  Then the six
    calls of [Free] leave through these exits, in this order: success (the
    copy [d0] of [ptr[r0]]), invalid pointer ([d0] again, which the first
    call set to null), success ([ptr[r1]]), double free ([ptr[r0]], which
    still holds the address that was freed through [d0]), invalid pointer
    ([ptr[r1]], set to null by its own free), success (the copy [d1] of
    [ptr[r1]]).  The [Allocate] in between returns into [d0] the block
    that [ptr[r1]] held, the one freed last, so the last [Free], through
    [d1], frees the block that [d0] now points to: at the end [d0] is not
    null and its block is the head of the free list.  Of the array only
    [ptr[r1]] has changed, to null. *)
Theorem double_deletes_test (size base n : Z) (st : State) (fl : list Z)
    (A : gset Z) (ptr : list Z) (r0 r1 : nat) (i0 i1 : Z) :
  size mod 8 = 0 -> 8 <= size -> n < 2 ^ 32 -> pool_fits base size n ->
  pool_inv size base n st fl A ->
  i0 ∈ A -> i1 ∈ A -> i0 <> i1 ->
  ptr !! r0 = Some (block_address base size i0) ->
  ptr !! r1 = Some (block_address base size i1) ->
  let t := test_double_deletes size ptr r0 r1 st in
  fst (fst (fst t))
  = [Freed; InvalidPointerPassed; Freed; DoubleFreeAttempt;
     InvalidPointerPassed; Freed]
  /\ snd (fst (fst t)) = base + i1 * size
  /\ snd (fst t) = <[r1 := 0]> ptr
  /\ free_list_head (snd t) size = base + i1 * size
  /\ base + i1 * size <> 0.
Proof.
  intros Hmult Hsize Hcount Hfit Hinv Hi0 Hi1 Hne Hr0 Hr1.
  set (b0 := block_address base size i0) in *.
  set (b1 := block_address base size i1) in *.
  assert (Hr : r0 <> r1).
  { intros ->. rewrite Hr0 in Hr1. injection Hr1 as Hb.
    destruct (blocks_apart size base Hmult Hsize i0 i1 Hne);
      unfold b0, b1 in Hb; lia. }
  destruct (proj2 (proj2 (proj2 (proj2 (proj2 Hinv)))) i0 Hi0) as [Hin0 _].
  destruct (proj2 (proj2 (proj2 (proj2 (proj2 Hinv)))) i1 Hi1) as [Hin1 _].
  pose proof (block_bounds size base n Hmult Hsize i0 Hin0) as [Hlo0 _].
  pose proof (block_bounds size base n Hmult Hsize i1 Hin1) as [Hlo1 _].
  fold b0 in Hlo0. fold b1 in Hlo1.
  assert (Hbase : 0 < base) by (destruct Hfit; assumption).
  (* line 73 *)
  destruct (pool_inv_Free size base n Hmult Hsize Hcount Hfit st fl A i0
              Hinv Hi0) as (He1 & Hp1 & Hinv1 & Hbit1 & _).
  fold b0 in He1, Hp1, Hinv1, Hbit1.
  pose proof (Free_result (Free size b0 st)) as H1.
  rewrite He1, Hp1 in H1.
  set (st1 := state_of (Free size b0 st)) in *.
  (* line 75 *)
  assert (Hi1' : i1 ∈ A ∖ {[i0]}).
  { apply elem_of_difference. split; [exact Hi1 |].
    intros Hx. apply elem_of_singleton in Hx. congruence. }
  destruct (pool_inv_Free size base n Hmult Hsize Hcount Hfit st1 _ _ i1
              Hinv1 Hi1') as (He3 & Hp3 & Hinv3 & _ & Hother3).
  fold b1 in He3, Hp3, Hinv3, Hother3.
  pose proof (Free_result (Free size b1 st1)) as H3.
  rewrite He3, Hp3 in H3.
  set (st3 := state_of (Free size b1 st1)) in *.
  (* line 76 *)
  assert (H4 : Free size b0 st3 = (DoubleFreeAttempt, b0, st3)).
  { assert (Hnz : b0 <> 0) by lia.
    rewrite (Free_present _ _ _ _ (proj1 Hinv3) Hnz). unfold b0.
    rewrite (index_of_block size base n Hmult Hsize Hcount Hfit i0 Hin0).
    rewrite (Hother3 i0 Hin0 Hne), Hbit1. reflexivity. }
  (* line 77 *)
  destruct (pool_inv_Allocate size base n Hmult Hsize Hcount Hfit st3 i1 _ _
              Hinv3) as (Ha & Hinv5 & _).
  fold b1 in Ha.
  pose proof (surjective_pairing (Allocate size st3)) as H5.
  rewrite Ha in H5.
  set (st5 := snd (Allocate size st3)) in *.
  (* line 79 *)
  assert (Hi1'' : i1 ∈ ({[i1]} ∪ (A ∖ {[i0]}) ∖ {[i1]} : gset Z)).
  { apply elem_of_union. left. apply elem_of_singleton. reflexivity. }
  destruct (pool_inv_Free size base n Hmult Hsize Hcount Hfit st5 _ _ i1
              Hinv5 Hi1'') as (He6 & _ & Hinv6 & _).
  fold b1 in He6, Hinv6.
  pose proof (Free_result (Free size b1 st5)) as H6.
  set (st6 := state_of (Free size b1 st5)) in *.
  (* the array *)
  assert (Hlen : (r1 < length ptr)%nat).
  { apply lookup_lt_is_Some. rewrite Hr1. eexists. reflexivity. }
  assert (Hptr3_r0 : nth r0 (<[r1 := 0]> ptr) 0 = b0).
  { rewrite nth_lookup, list_lookup_insert_ne by congruence.
    rewrite Hr0. reflexivity. }
  assert (Hptr3_r1 : nth r1 (<[r1 := 0]> ptr) 0 = 0).
  { rewrite nth_lookup, list_lookup_insert.
    destruct (decide (r1 = r1 /\ (r1 < length ptr)%nat)) as [_ | Hn];
      [reflexivity | exfalso; apply Hn; split; [reflexivity | exact Hlen]]. }
  assert (Hkeep0 : <[r0 := b0]> (<[r1 := 0]> ptr) = <[r1 := 0]> ptr).
  { apply list_insert_id. rewrite list_lookup_insert_ne by congruence.
    exact Hr0. }
  assert (Hkeep1 : <[r1 := 0]> (<[r1 := 0]> ptr) = <[r1 := 0]> ptr).
  { apply list_insert_id. rewrite list_lookup_insert.
    destruct (decide (r1 = r1 /\ (r1 < length ptr)%nat)) as [_ | Hn];
      [reflexivity | exfalso; apply Hn; split; [reflexivity | exact Hlen]]. }
  (* the run *)
  cbv zeta. unfold test_double_deletes, Free_at. cbv zeta.
  rewrite !nth_lookup, Hr0, Hr1. cbn [default from_option id]. fold b0. fold b1.
  rewrite H1. cbn [exit_of pointer_of state_of fst snd].
  change (Free size 0 st1) with (InvalidPointerPassed, 0, st1).
  cbn [exit_of pointer_of state_of fst snd].
  rewrite H3. cbn [exit_of pointer_of state_of fst snd].
  rewrite <- !nth_lookup, Hptr3_r0, H4.
  cbn [exit_of pointer_of state_of fst snd].
  rewrite Hkeep0, Hptr3_r1, H5. cbn [fst snd].
  change (Free size 0 st5) with (InvalidPointerPassed, 0, st5).
  cbn [exit_of pointer_of state_of fst snd].
  rewrite Hkeep1, H6, He6. cbn [exit_of pointer_of state_of fst snd].
  fold st6.
  assert (Hb1 : b1 = base + i1 * size)
    by (apply block_address_multiple; exact Hmult).
  rewrite <- Hb1.
  split; [reflexivity |]. split; [reflexivity |].
  split; [reflexivity |]. split; [| lia].
  destruct Hinv6 as (_ & _ & Hchain & _). destruct Hchain as [Hhead _].
  exact Hhead.
Qed.

(** The allocator of Main.cpp with ten blocks per pool, after the twelve
    allocations of the first test; [ptr] holds what they returned, and
    the indices are 3 and 5. *)
Lemma double_deletes_test_witness :
  let st0 := MemoryManager_new 10 (Mem.filled 0) 4096 in
  let ptr := fst (allocate_n (Z.to_nat 10 + 2) sizeof_Dummy st0) in
  let st := snd (allocate_n (Z.to_nat 10 + 2) sizeof_Dummy st0) in
  let t := test_double_deletes sizeof_Dummy ptr 3 5 st in
  fst (fst (fst t))
  = [Freed; InvalidPointerPassed; Freed; DoubleFreeAttempt;
     InvalidPointerPassed; Freed]
  /\ snd (fst (fst t)) = 4192 + 5 * sizeof_Dummy
  /\ snd (fst t) = <[5%nat := 0]> ptr
  /\ free_list_head (snd t) sizeof_Dummy = 4192 + 5 * sizeof_Dummy
  /\ 4192 + 5 * sizeof_Dummy <> 0.
Proof.
  assert (Hn : 0 <= 10 < 65536) by lia.
  assert (Hroom : 4096 + 64 * 10 + 256 <= 2 ^ 64)
    by (vm_compute; congruence).
  destruct (constructor_pool 10 (Mem.filled 0) 4096 sizeof_Dummy Hn
              ltac:(lia) Hroom ltac:(right; left; reflexivity))
    as (base & Hlinked & Hfit & Hmult & Hsize).
  assert (Hbase : base = 4192).
  { destruct Hlinked as (Hpool & _). vm_compute in Hpool. congruence. }
  subst base.
  pose proof (constructor_pool_full 10 (Mem.filled 0) 4096 sizeof_Dummy 4192
                2 Hn Hlinked Hfit Hmult Hsize) as Hinv.
  apply (double_deletes_test sizeof_Dummy 4192 10 _ []
           (list_to_set (seqZ 0 10)) _ 3 5 3 5
           Hmult Hsize ltac:(lia) Hfit Hinv).
  - apply elem_of_list_to_set, elem_of_seqZ. lia.
  - apply elem_of_list_to_set, elem_of_seqZ. lia.
  - lia.
  - vm_compute. reflexivity.
  - vm_compute. reflexivity.
Defined.

(** ** The destructor *)

Lemma array_length_positive size nb :
  0 < size < 2 ^ 32 ->
  0 < wrap64 (size * wrap16 nb + sizeof_ptr + wrap16 nb / NUMBITSPERBYTE + 1).
Proof.
  intros Hsize. unfold wrap64, wrap16, sizeof_ptr, NUMBITSPERBYTE.
  pose proof (Z.mod_pos_bound nb (2 ^ 16) ltac:(lia)) as Hnb.
  set (k := nb mod 2 ^ 16) in *.
  assert (0 <= k / 8 <= k)
    by (split; [apply Z.div_pos | apply Z.div_le_upper_bound]; lia).
  change (2 ^ 16) with 65536 in Hnb. change (2 ^ 32) with 4294967296 in Hsize.
  assert (0 <= size * k <= 4294967296 * 65536) by nia.
  rewrite Z.mod_small; [lia |].
  change (2 ^ 64) with 18446744073709551616. lia.
Qed.

Lemma registry_same st st' :
  mPool st' = mPool st -> heap_next st' = heap_next st ->
  arrays st' = arrays st ->
  (registry_sound st -> registry_sound st')
  /\ (no_array_lost st -> no_array_lost st').
Proof.
  intros Hp Hh Ha. unfold registry_sound, no_array_lost.
  rewrite Hp, Hh, Ha. split; intros H; exact H.
Qed.

Lemma registry_null_entry st size :
  mPool st !! size = None ->
  (registry_sound st ->
   registry_sound (set_mPool (<[size := 0]> (mPool st)) st))
  /\ (no_array_lost st ->
      no_array_lost (set_mPool (<[size := 0]> (mPool st)) st)).
Proof.
  intros Hnone. unfold registry_sound, no_array_lost.
  cbn [set_mPool mPool heap_next arrays]. split.
  - intros (Hheap & Hbelow & Hlive & Hinj).
    split; [exact Hheap |]. split; [exact Hbelow |]. split.
    + intros s p Hs Hp. apply lookup_insert_Some in Hs as [[_ <-] | [_ Hs]].
      * contradiction.
      * apply (Hlive s p Hs Hp).
    + intros s1 s2 p H1 H2 Hp.
      apply lookup_insert_Some in H1 as [[_ <-] | [_ H1]]; [contradiction |].
      apply lookup_insert_Some in H2 as [[_ <-] | [_ H2]]; [contradiction |].
      apply (Hinj s1 s2 p H1 H2 Hp).
  - intros Hall p Hp. destruct (Hall p Hp) as [s Hs]. exists s.
    rewrite lookup_insert_ne; [exact Hs |]. intros <-. congruence.
Qed.

(** [InitializePool] keeps the registry sound, and loses no array when
    the pool for the size does not exist. *)
Lemma registry_InitializePool st size nb :
  0 < size < 2 ^ 32 ->
  registry_sound st ->
  registry_sound (InitializePool size nb st)
  /\ (mPool st !! size = None \/ mPool st !! size = Some 0 ->
      no_array_lost st -> no_array_lost (InitializePool size nb st)).
Proof.
  intros Hsize (Hheap & Hbelow & Hlive & Hinj).
  destruct (InitializePool_registry size nb st) as (_ & Hp & Hh & Ha).
  pose proof (array_length_positive size nb Hsize) as Hlen.
  pose proof (align16_bounds
                (heap_next st
                 + wrap64 (size * wrap16 nb + 8 + wrap16 nb / 8 + 1)))
    as Halign.
  unfold sizeof_ptr, NUMBITSPERBYTE in Hlen.
  assert (Hfresh : arrays st !! heap_next st = None).
  { destruct (arrays st !! heap_next st) as [len |] eqn:E; [| reflexivity].
    pose proof (Hbelow _ _ E). lia. }
  assert (Hnot : forall s, mPool st !! s <> Some (heap_next st)).
  { intros s Hs. destruct (Hlive s _ Hs ltac:(lia)) as [len E]. congruence. }
  unfold registry_sound, no_array_lost. rewrite Hp, Hh, Ha.
  split; [split; [lia |]; split; [| split] |].
  - intros p len Hl. apply lookup_insert_Some in Hl as [[<- _] | [_ Hl]].
    + lia.
    + pose proof (Hbelow _ _ Hl). lia.
  - intros s p Hs Hnz. apply lookup_insert_Some in Hs as [[_ <-] | [_ Hs]].
    + rewrite lookup_insert_eq. eexists. reflexivity.
    + destruct (Hlive s p Hs Hnz) as [len E].
      rewrite lookup_insert_ne; [rewrite E; eexists; reflexivity |].
      intros <-. congruence.
  - intros s1 s2 p H1 H2 Hnz.
    apply lookup_insert_Some in H1 as [[<- <-] | [Hn1 H1]];
      apply lookup_insert_Some in H2 as [[<- Hq] | [Hn2 H2]].
    + reflexivity.
    + exfalso. apply (Hnot _ H2).
    + exfalso. subst p. apply (Hnot _ H1).
    + apply (Hinj s1 s2 p H1 H2 Hnz).
  - intros Hentry Hall p Hsome.
    apply lookup_insert_is_Some' in Hsome as [<- | Hsome].
    + exists size. apply lookup_insert_eq.
    + destruct (Hall p Hsome) as [s Hs]. exists s.
      rewrite lookup_insert_ne; [exact Hs |].
      intros <-. destruct Hsome as [len E]. pose proof (Hbelow _ _ E).
      destruct Hentry as [Hn | Hz]; [congruence |].
      rewrite Hz in Hs. injection Hs as <-. lia.
Qed.

Lemma registry_Allocate st size :
  0 < size < 2 ^ 32 ->
  registry_sound st ->
  registry_sound (snd (Allocate size st))
  /\ (no_array_lost st -> no_array_lost (snd (Allocate size st))).
Proof.
  intros Hsize Hsound.
  unfold Allocate.
  destruct (mPool st !! size) as [p |] eqn:Hp.
  - rewrite (mPool_index_present _ _ _ Hp).
    destruct (Z.eqb_spec p 0) as [-> | Hnz].
    + set (s' := InitializePool size (mNumBlocksPerPool st) st).
      assert (Hp' : mPool s' !! size = Some (heap_next st)).
      { destruct (InitializePool_registry size (mNumBlocksPerPool st) st)
          as (_ & Hreg & _). unfold s'. rewrite Hreg.
        apply lookup_insert_eq. }
      rewrite (mPool_index_present _ _ _ Hp').
      destruct (registry_InitializePool st size (mNumBlocksPerPool st) Hsize
                  Hsound) as [Hs' Hlost'].
      specialize (Hlost' (or_intror Hp)). fold s' in Hs', Hlost'.
      destruct_head_test.
      * split; assumption.
      * split; [| intros H]; eapply registry_same; try reflexivity;
          [exact Hs' | apply Hlost', H].
    + rewrite (mPool_index_present _ _ _ Hp).
      destruct_head_test.
      * split; [exact Hsound | intros H; exact H].
      * split; [| intros H]; eapply registry_same; try reflexivity;
          [exact Hsound | exact H].
  - rewrite (mPool_index_absent _ _ Hp). cbn [Z.eqb].
    set (s0 := set_mPool (<[size := 0]> (mPool st)) st).
    destruct (registry_null_entry st size Hp) as [Hs0 Hlost0].
    fold s0 in Hs0, Hlost0. specialize (Hs0 Hsound).
    assert (Hp0 : mPool s0 !! size = Some 0) by apply lookup_insert_eq.
    set (s' := InitializePool size (mNumBlocksPerPool s0) s0).
    assert (Hp' : mPool s' !! size = Some (heap_next s0)).
    { destruct (InitializePool_registry size (mNumBlocksPerPool s0) s0)
        as (_ & Hreg & _). unfold s'. rewrite Hreg.
      apply lookup_insert_eq. }
    rewrite (mPool_index_present _ _ _ Hp').
    destruct (registry_InitializePool s0 size (mNumBlocksPerPool s0) Hsize
                Hs0) as [Hs' Hlost'].
    specialize (Hlost' (or_intror Hp0)). fold s' in Hs', Hlost'.
    destruct_head_test.
    * split; [exact Hs' | intros H; apply Hlost', Hlost0, H].
    * split; [| intros H]; eapply registry_same; try reflexivity;
        [exact Hs' | apply Hlost', Hlost0, H].
Qed.

Lemma registry_Free st size block :
  registry_sound st ->
  registry_sound (state_of (Free size block st))
  /\ (no_array_lost st -> no_array_lost (state_of (Free size block st))).
Proof.
  intros Hsound. unfold Free.
  destruct (block =? 0); [split; [exact Hsound | intros H; exact H] |].
  destruct (mPool st !! size) as [p |] eqn:Hp.
  - rewrite (mPool_index_present _ _ _ Hp).
    match goal with
    | |- context [if Z.eqb ?a 0 then _ else _] => destruct (Z.eqb a 0)
    end; unfold state_of; cbn [snd].
    + split; [exact Hsound | intros H; exact H].
    + split; [| intros H]; eapply registry_same; try reflexivity;
        [exact Hsound | exact H].
  - rewrite (mPool_index_absent _ _ Hp).
    destruct (registry_null_entry st size Hp) as [Hs0 Hlost0].
    specialize (Hs0 Hsound).
    match goal with
    | |- context [if Z.eqb ?a 0 then _ else _] => destruct (Z.eqb a 0)
    end; unfold state_of; cbn [snd].
    + split; [exact Hs0 | exact Hlost0].
    + split; [| intros H]; eapply registry_same; try reflexivity;
        [exact Hs0 | apply Hlost0, H].
Qed.

Lemma registry_run_calls cs :
  Forall (fun c => 0 < call_size c < 2 ^ 32) cs ->
  forall st,
    registry_sound st -> no_array_lost st ->
    registry_sound (run_calls cs st) /\ no_array_lost (run_calls cs st).
Proof.
  induction 1 as [| c cs Hc _ IH]; intros st Hsound Hlost.
  - split; assumption.
  - unfold run_calls. cbn [fold_left]. apply IH.
    + destruct c as [size | size block]; cbn [run_call call_size] in *.
      * apply registry_Allocate; assumption.
      * apply registry_Free; assumption.
    + destruct c as [size | size block]; cbn [run_call call_size] in *.
      * apply registry_Allocate; assumption.
      * apply registry_Free; assumption.
Qed.

Lemma registry_MemoryManager_new n m heap :
  0 < heap ->
  registry_sound (MemoryManager_new n m heap)
  /\ no_array_lost (MemoryManager_new n m heap).
Proof.
  intros Hheap. unfold MemoryManager_new. cbn [fold_left].
  change (2 ^ 3) with 8. change (2 ^ 4) with 16. change (2 ^ 5) with 32.
  set (s0 := mkState (wrap32 n) ∅ m heap ∅).
  assert (H0 : registry_sound s0 /\ no_array_lost s0).
  { unfold registry_sound, no_array_lost, s0.
    cbn [heap_next arrays mPool].
    split; [split; [exact Hheap |]; split; [| split] |].
    - intros p len H. rewrite lookup_empty in H. discriminate.
    - intros s p H. rewrite lookup_empty in H. discriminate.
    - intros s1 s2 p H. rewrite lookup_empty in H. discriminate.
    - intros p Hp. rewrite lookup_empty in Hp. destruct Hp; discriminate. }
  destruct H0 as [Hs0 Hl0].
  set (s1 := InitializePool 8 n s0).
  destruct (registry_InitializePool s0 8 n ltac:(lia) Hs0) as [Hs1 Hl1].
  specialize (Hl1 (or_introl (lookup_empty 8))). fold s1 in Hs1, Hl1.
  assert (Hp1 : mPool s1 = <[8 := heap]> ∅).
  { destruct (InitializePool_registry 8 n s0) as (_ & Hreg & _).
    exact Hreg. }
  set (s2 := InitializePool 16 n s1).
  assert (Hn16 : mPool s1 !! 16 = None).
  { rewrite Hp1, lookup_insert_ne by lia. apply lookup_empty. }
  destruct (registry_InitializePool s1 16 n ltac:(lia) Hs1) as [Hs2 Hl2].
  specialize (Hl2 (or_introl Hn16)). fold s2 in Hs2, Hl2.
  assert (Hp2 : mPool s2 = <[16 := heap_next s1]> (<[8 := heap]> ∅)).
  { destruct (InitializePool_registry 16 n s1) as (_ & Hreg & _).
    unfold s2. rewrite Hreg, Hp1. reflexivity. }
  assert (Hn32 : mPool s2 !! 32 = None).
  { rewrite Hp2, !lookup_insert_ne by lia. apply lookup_empty. }
  destruct (registry_InitializePool s2 32 n ltac:(lia) Hs2) as [Hs3 Hl3].
  specialize (Hl3 (or_introl Hn32)).
  split; [exact Hs3 | apply Hl3, Hl2, Hl1, Hl0].
Qed.

(** The loop of the destructor over a list of entries with pairwise
    distinct keys, in which no two keys share a pointer that is not null
    and every such pointer is the start of a live array: every [delete[]]
    is defined, the arrays of the entries are released and no other. *)
Lemma delete_entries_spec entries :
  forall live,
    NoDup entries.*1 ->
    (forall k1 k2 p,
       (k1, p) ∈ entries -> (k2, p) ∈ entries -> p <> 0 -> k1 = k2) ->
    (forall k p, (k, p) ∈ entries -> p <> 0 -> is_Some (live !! p)) ->
    exists live',
      delete_entries entries live = Some live'
      /\ (forall k p, (k, p) ∈ entries -> p <> 0 -> live' !! p = None)
      /\ (forall q, (forall k, (k, q) ∉ entries) -> live' !! q = live !! q)
      /\ (forall q, live !! q = None -> live' !! q = None).
Proof.
  induction entries as [| [k p] rest IH]; intros live Hnd Hinj Hlive.
  - exists live. split; [reflexivity |]. split; [| split].
    + intros k p Hin. inversion Hin.
    + reflexivity.
    + intros q Hq. exact Hq.
  - cbn [fmap list_fmap fst] in Hnd. apply NoDup_cons in Hnd as [Hk Hnd].
    assert (Hinj' : forall k1 k2 q,
              (k1, q) ∈ rest -> (k2, q) ∈ rest -> q <> 0 -> k1 = k2).
    { intros k1 k2 q H1 H2. apply Hinj; right; assumption. }
    assert (Hkey : forall k' q, (k', q) ∈ rest -> k' <> k).
    { intros k' q Hin ->. apply Hk. apply list_elem_of_fmap.
      exists (k, q). split; [reflexivity | exact Hin]. }
    cbn [delete_entries]. unfold delete_char_array.
    destruct (Z.eqb_spec p 0) as [-> | Hnz].
    + destruct (IH live Hnd Hinj') as (live' & Hrun & Hgone & Hkept & Hnone).
      { intros k' q Hin Hq. apply (Hlive k' q); [right; exact Hin | exact Hq]. }
      exists live'. split; [exact Hrun |]. split; [| split].
      * intros k' q Hin Hq. apply elem_of_cons in Hin as [Heq | Hin].
        -- injection Heq as _ ->. contradiction.
        -- apply (Hgone k' q Hin Hq).
      * intros q Hq. apply Hkept. intros k' Hin. apply (Hq k'). right.
        exact Hin.
      * exact Hnone.
    + destruct (Hlive k p ltac:(left) Hnz) as [len Hlen]. rewrite Hlen.
      destruct (IH (delete p live) Hnd Hinj')
        as (live' & Hrun & Hgone & Hkept & Hnone).
      { intros k' q Hin Hq. apply lookup_delete_is_Some. split.
        - intros <-. apply (Hkey k' p Hin).
          apply (Hinj k' k p); [right; exact Hin | left | exact Hnz].
        - apply (Hlive k' q); [right; exact Hin | exact Hq]. }
      exists live'. split; [exact Hrun |]. split; [| split].
      * intros k' q Hin Hq. apply elem_of_cons in Hin as [Heq | Hin].
        -- injection Heq as _ ->. apply Hnone. apply lookup_delete_eq.
        -- apply (Hgone k' q Hin Hq).
      * intros q Hq. rewrite Hkept.
        -- apply lookup_delete_ne. intros <-. apply (Hq k). left.
        -- intros k' Hin. apply (Hq k'). right. exact Hin.
      * intros q Hq. apply Hnone. apply lookup_delete_None. right. exact Hq.
Qed.

(** The destructor on a state whose registry is sound: every [delete[]]
    is defined, and what stays allocated are the arrays that no entry of
    the registry points to. *)
Lemma MemoryManager_delete_sound st :
  registry_sound st ->
  exists live',
    MemoryManager_delete st
    = Some (mkState (mNumBlocksPerPool st) ∅ (memory st) (heap_next st) live')
    /\ (forall q, (forall s, mPool st !! s <> Some q) ->
          live' !! q = arrays st !! q)
    /\ (forall q, (exists s, mPool st !! s = Some q) -> live' !! q = None)
    /\ (forall q, arrays st !! q = None -> live' !! q = None).
Proof.
  intros (Hheap & Hbelow & Hlive & Hinj).
  destruct (delete_entries_spec (map_to_list (mPool st)) (arrays st))
    as (live' & Hrun & Hgone & Hkept & Hnone).
  - apply NoDup_fst_map_to_list.
  - intros k1 k2 p H1 H2. apply elem_of_map_to_list in H1, H2.
    apply (Hinj k1 k2 p H1 H2).
  - intros k p Hin. apply elem_of_map_to_list in Hin. apply (Hlive k p Hin).
  - exists live'. unfold MemoryManager_delete. rewrite Hrun.
    split; [reflexivity |]. split; [| split; [| exact Hnone]].
    + intros q Hq. apply Hkept. intros k Hin.
      apply elem_of_map_to_list in Hin. apply (Hq k Hin).
    + intros q [s Hs]. destruct (Z.eq_dec q 0) as [-> | Hnz].
      * apply Hnone. destruct (arrays st !! 0) as [len |] eqn:E;
          [| reflexivity].
        pose proof (Hbelow _ _ E). lia.
      * apply (Hgone s q); [| exact Hnz].
        apply elem_of_map_to_list. exact Hs.
Qed.



(** X16.  [InitializePool] is a public member and stores the new array in
    the registry without a look at the entry of the size (line 70).  When
    it is called for a size whose pool exists, in a state reached from the
    constructor by calls of [Allocate] and [Free], the array of that pool
    is lost: the registry points to the new array only, the destructor
    runs as before, and afterwards the old array is still allocated. *)
Theorem InitializePool_again_loses_the_array (n : Z) (m : Mem.t) (heap : Z)
    (cs : list Call) (size nb p : Z) :
  0 < heap ->
  Forall (fun c => 0 < call_size c < 2 ^ 32) cs ->
  0 < size < 2 ^ 32 ->
  let st := run_calls cs (MemoryManager_new n m heap) in
  mPool st !! size = Some p -> p <> 0 ->
  mPool (InitializePool size nb st) !! size = Some (heap_next st)
  /\ heap_next st <> p
  /\ exists live,
       MemoryManager_delete (InitializePool size nb st)
       = Some (mkState (mNumBlocksPerPool st) ∅
                       (memory (InitializePool size nb st))
                       (heap_next (InitializePool size nb st)) live)
       /\ live !! p = arrays st !! p /\ is_Some (arrays st !! p).
Proof.
  intros Hheap Hsizes Hsize st Hp Hnz.
  destruct (registry_MemoryManager_new n m heap Hheap) as [Hs0 Hl0].
  destruct (registry_run_calls cs Hsizes _ Hs0 Hl0) as [Hsound _].
  fold st in Hsound.
  destruct (registry_InitializePool st size nb Hsize Hsound) as [Hsound' _].
  destruct (InitializePool_registry size nb st) as (Hcount & Hreg & _ & Harr).
  destruct Hsound as (_ & Hbelow & Hlive & Hinj).
  destruct (Hlive size p Hp Hnz) as [len Hlen].
  pose proof (Hbelow _ _ Hlen) as Hlt.
  split; [rewrite Hreg; apply lookup_insert_eq |]. split; [lia |].
  destruct (MemoryManager_delete_sound _ Hsound')
    as (live & Hrun & Hkept & _ & _).
  exists live. rewrite Hrun, Hcount. split; [reflexivity |].
  split; [| rewrite Hlen; eexists; reflexivity].
  rewrite Hkept.
  - rewrite Harr. apply lookup_insert_ne. lia.
  - intros s Hs. rewrite Hreg in Hs.
    apply lookup_insert_Some in Hs as [[_ Heq] | [Hne Hs]]; [lia |].
    apply Hne. apply (Hinj size s p Hp Hs Hnz).
Qed.

(** The pool of 16 bytes right after the construction. *)
Lemma InitializePool_again_loses_the_array_witness :
  let st := run_calls [] (MemoryManager_new 10 (Mem.filled 0) 4096) in
  mPool (InitializePool 16 10 st) !! 16 = Some (heap_next st)
  /\ heap_next st <> 4192
  /\ exists live,
       MemoryManager_delete (InitializePool 16 10 st)
       = Some (mkState (mNumBlocksPerPool st) ∅
                       (memory (InitializePool 16 10 st))
                       (heap_next (InitializePool 16 10 st)) live)
       /\ live !! 4192 = arrays st !! 4192 /\ is_Some (arrays st !! 4192).
Proof.
  apply (InitializePool_again_loses_the_array 10 (Mem.filled 0) 4096 []
           16 10 4192).
  - lia.
  - constructor.
  - lia.
  - vm_compute. reflexivity.
  - lia.
Defined.
